(** * preprocessing/PreProcessing.py: the tweet pre-processing pipeline

    A shallow embedding of the pre-processor classes and of the two batch
    drivers [preprocess_strings] and [preprocess_tweets], followed by the
    properties of the specification that were checked against them.

    Text.  A Python [str] is modelled as a [string] whose characters are the
    code points U+0000..U+00FF (Latin-1); the character classes below are
    the ones CPython uses on that range ([str.isspace], [str.lower], the
    [\S], [\b] classes of [re] on [str] patterns).

    Dynamic typing.  The running value of a pipeline is either a [str] or a
    [list] of [str]; iterating a [str] yields its one-character strings, and
    asking a [list] for [split] or [strip] raises [AttributeError]. *)

From Stdlib Require Import Strings.String Strings.Ascii Lists.List.
From Stdlib Require Import Bool Arith NArith ZArith Lia.
Import ListNotations.

Open Scope string_scope.
Open Scope list_scope.

(* ------------------------------------------------------------------ *)
(** ** Python [str] operations *)

Module PyStr.

Definition code (c : ascii) : N := N_of_ascii c.

Definition in_range (lo hi : N) (c : ascii) : bool :=
  ((lo <=? code c) && (code c <=? hi))%N.

(** [str.isspace] on one character: TAB..CR, FS..US, SPACE, NEL, NBSP. *)
Definition isspace (c : ascii) : bool :=
  in_range 9 13 c || in_range 28 31 c
  || (code c =? 32)%N || (code c =? 133)%N || (code c =? 160)%N.

(** [[0-9]], [[a-z]], [[a-zA-Z]] of an [re] character set. *)
Definition is_digit (c : ascii) : bool := in_range 48 57 c.
Definition is_lower_az (c : ascii) : bool := in_range 97 122 c.
Definition is_alpha_az (c : ascii) : bool :=
  in_range 97 122 c || in_range 65 90 c.

(** [\w] of a [str] pattern: [str.isalnum] or the underscore. *)
Definition is_word (c : ascii) : bool :=
  in_range 48 57 c || in_range 65 90 c || in_range 97 122 c
  || (code c =? 95)%N
  || (code c =? 170)%N || (code c =? 178)%N || (code c =? 179)%N
  || (code c =? 181)%N || (code c =? 185)%N || (code c =? 186)%N
  || in_range 188 190 c
  || in_range 192 214 c || in_range 216 246 c || in_range 248 255 c.

(** [str.lower] on one character. *)
Definition lower_char (c : ascii) : ascii :=
  if in_range 65 90 c || in_range 192 214 c || in_range 216 222 c
  then ascii_of_N (code c + 32)
  else c.

Fixpoint lower (s : string) : string :=
  match s with
  | EmptyString => EmptyString
  | String c s' => String (lower_char c) (lower s')
  end.

Fixpoint lstrip (s : string) : string :=
  match s with
  | EmptyString => EmptyString
  | String c s' => if isspace c then lstrip s' else s
  end.

Fixpoint rstrip (s : string) : string :=
  match s with
  | EmptyString => EmptyString
  | String c s' =>
      match rstrip s' with
      | EmptyString => if isspace c then EmptyString else String c EmptyString
      | r => String c r
      end
  end.

(** [s.strip()] *)
Definition strip (s : string) : string := rstrip (lstrip s).

(** Truth value of a [str]: non-empty. *)
Definition truthy (s : string) : bool :=
  match s with EmptyString => false | String _ _ => true end.

(** [len(s)] *)
Definition len (s : string) : Z := Z.of_nat (String.length s).

(** [s.split()]: the maximal runs of non-whitespace characters, in order.
    [cur] is the run being read. *)
Fixpoint split_from (cur : string) (s : string) : list string :=
  match s with
  | EmptyString => if truthy cur then [cur] else []
  | String c s' =>
      if isspace c
      then (if truthy cur then cur :: split_from EmptyString s'
            else split_from EmptyString s')
      else split_from (cur ++ String c EmptyString) s'
  end.

Definition split (s : string) : list string := split_from EmptyString s.

(** [sep.join(words)] *)
Definition join (sep : string) (words : list string) : string :=
  String.concat sep words.

(** [for ch in s]: the one-character strings of [s]. *)
Fixpoint chars (s : string) : list string :=
  match s with
  | EmptyString => []
  | String c s' => String c EmptyString :: chars s'
  end.

(** [term in s] on strings: [term] occurs as a substring of [s]. *)
Fixpoint contains (term s : string) : bool :=
  String.prefix term s
  || match s with
     | EmptyString => false
     | String _ s' => contains term s'
     end.

(** [x in xs] on a list of strings. *)
Definition mem (x : string) (xs : list string) : bool :=
  existsb (String.eqb x) xs.

(** [string.punctuation] *)
Definition punctuation : string :=
  "!" ++ String "034"%char "#$%&'()*+,-./:;<=>?@[\]^_`{|}~".

(** A translation table as [str.maketrans] builds it from a dict. *)
Definition table := list (ascii * string).

Fixpoint table_get (t : table) (c : ascii) : option string :=
  match t with
  | [] => None
  | (k, v) :: t' => if Ascii.eqb k c then Some v else table_get t' c
  end.

(** [s.translate(t)] *)
Fixpoint translate (t : table) (s : string) : string :=
  match s with
  | EmptyString => EmptyString
  | String c s' =>
      match table_get t c with
      | Some r => r ++ translate t s'
      | None => String c (translate t s')
      end
  end.

(** [{key: v for key in keys if keep(key)}] handed to [str.maketrans]. *)
Fixpoint maketrans (keep : ascii -> bool) (v : string) (keys : string) : table :=
  match keys with
  | EmptyString => []
  | String k keys' =>
      if keep k then (k, v) :: maketrans keep v keys'
      else maketrans keep v keys'
  end.

End PyStr.

(* ------------------------------------------------------------------ *)
(** ** The [re] patterns of the module

    A pattern is given by its matcher: [m s = Some n] when the pattern
    matches at the start of [s] and the match the engine settles on
    (greedy quantifiers) has [n] characters, [None] when it does not match
    there.  None of the substituted patterns looks behind its start. *)

Module Re.
Import PyStr.

Definition matcher := string -> option nat.

(** Length of the longest prefix made of characters in [p]: what a
    greedy [[p]*] consumes. *)
Fixpoint run (p : ascii -> bool) (s : string) : nat :=
  match s with
  | EmptyString => 0
  | String c s' => if p c then S (run p s') else 0
  end.

(** [[p]+] *)
Definition plus (p : ascii -> bool) : matcher :=
  fun s => match run p s with 0 => None | n => Some n end.

(** [[p]*] *)
Definition star (p : ascii -> bool) : matcher :=
  fun s => Some (run p s).

Definition not_space (c : ascii) : bool := negb (isspace c).

(** [@[\S]+] *)
Definition mention : matcher :=
  fun s =>
    match s with
    | String c r =>
        if Ascii.eqb c "@"
        then match plus not_space r with
             | Some n => Some (S n)
             | None => None
             end
        else None
    | EmptyString => None
    end.

(** [s] without its first [n] characters. *)
Fixpoint skipn (n : nat) (s : string) : string :=
  match n, s with
  | S k, String _ s' => skipn k s'
  | _, _ => s
  end.

(** [https?:\/\/\S*]: the optional [s] is tried first. *)
Definition url : matcher :=
  fun s =>
    if String.prefix "https://" s
    then Some (8 + run not_space (skipn 8 s))
    else if String.prefix "http://" s
    then Some (7 + run not_space (skipn 7 s))
    else None.

(** [[0-9]+] *)
Definition digits : matcher := plus is_digit.

(** [[^a-zA-Z]*] *)
Definition non_alphabet : matcher := star (fun c => negb (is_alpha_az c)).

(** [([a-z])\1\1+]: a lower-case letter, then the same letter twice or
    more. *)
Definition letter_repetition : matcher :=
  fun s =>
    match s with
    | String c r =>
        if is_lower_az c
        then (let n := run (Ascii.eqb c) r in
              if (2 <=? n)%nat then Some (S n) else None)
        else None
    | EmptyString => None
    end.

(** Group 1 of a [letter_repetition] match: its first character. *)
Definition group1 (matched : string) : string :=
  match matched with
  | String c _ => String c EmptyString
  | EmptyString => EmptyString
  end.

(** [pattern.sub(repl, s)]: the matches are looked for from left to
    right and do not overlap; the text between them is copied.  [repl]
    receives the matched text.  After an empty match the next character
    is copied and the search goes on past it; an empty match right after
    a non-empty one is replaced too.  [skip] counts the characters of
    the current match still to be dropped. *)
Fixpoint sub_from (m : matcher) (repl : string -> string)
         (skip : nat) (s : string) : string :=
  match skip with
  | S k =>
      match s with
      | EmptyString => EmptyString
      | String _ s' => sub_from m repl k s'
      end
  | O =>
      match m s with
      | Some (S k) =>
          repl (String.substring 0 (S k) s)
          ++ match s with
             | EmptyString => EmptyString
             | String _ s' => sub_from m repl k s'
             end
      | Some O =>
          repl EmptyString
          ++ match s with
             | EmptyString => EmptyString
             | String c s' => String c (sub_from m repl 0 s')
             end
      | None =>
          match s with
          | EmptyString => EmptyString
          | String c s' => String c (sub_from m repl 0 s')
          end
      end
  end.

Definition sub (m : matcher) (repl : string -> string) (s : string) : string :=
  sub_from m repl 0 s.

(** A replacement token as [sub] uses it.  [re] expands the backslash
    escapes of a replacement; a token without backslash, as are the default
    tokens of the module, stands for itself. *)
Definition literal (token : string) : string -> string := fun _ => token.

(** The replacement tokens of the model.  [re] reads a replacement as a
    template: with a backslash in it, it is expanded or refused with
    [re.error]; without one it is used as it is.  Only the tokens without
    backslash are modelled, so that [literal] is what [sub] does with
    them. *)
Fixpoint backslash_free (s : string) : bool :=
  match s with
  | EmptyString => true
  | String c s' => negb (Ascii.eqb c "\") && backslash_free s'
  end.

Record plain_token : Type :=
  plain { token_text : string;
          token_plain : backslash_free token_text = true }.

Definition is_word_opt (c : option ascii) : bool :=
  match c with Some c => is_word c | None => false end.

(** [\b] between [prev] and [next] ([None]: the edge of the text). *)
Definition boundary (prev next : option ascii) : bool :=
  xorb (is_word_opt prev) (is_word_opt next).

Definition head (s : string) : option ascii :=
  match s with String c _ => Some c | EmptyString => None end.

(** [\bab\b] tried at the start of the text. *)
Definition word2_at_start (a b : ascii) (s : string) : bool :=
  match s with
  | String c1 (String c2 rest) =>
      boundary None (Some c1) && Ascii.eqb c1 a && Ascii.eqb c2 b
      && boundary (Some c2) (head rest)
  | _ => false
  end.

(** [re.compile(r"\brt\b|\bRT\b").match(s)] is not [None]. *)
Definition match_rt (s : string) : bool :=
  word2_at_start "r" "t" s || word2_at_start "R" "T" s.

End Re.

(* ------------------------------------------------------------------ *)
(** ** The pre-processor classes *)

Module PreProcessing.
Import PyStr.

Inductive exn : Type :=
| AttributeError.

Inductive result (A : Type) : Type :=
| Ok (a : A)
| Raise (e : exn).
Arguments Ok {A} a.
Arguments Raise {A} e.

Definition bind {A B : Type} (r : result A) (k : A -> result B) : result B :=
  match r with
  | Ok a => k a
  | Raise e => Raise e
  end.

(** What a pipeline hands from one pre-processor to the next. *)
Inductive value : Type :=
| VStr (s : string)
| VList (words : list string).

(** [for word in v] *)
Definition iter (v : value) : list string :=
  match v with
  | VStr s => chars s
  | VList words => words
  end.

(** An instance of a subclass of [PreProcessor], with the attributes its
    [__init__] sets.  An attribute that [__init__] may leave unset is an
    [option]; the compiled patterns are fixed per class and live in
    [Re]. *)
Inductive PreProcessor : Type :=
| WordLengthFilter (min_word_length : Z)
| WordToLowercase
| SplitWordByWhitespace
| RemovePunctuationFromWords (translator : table)
| ReplaceUsernameMention (replacement_token : Re.plain_token)
| ReplaceURL (replacement_token : Re.plain_token)
| RemoveRT (replacement_token : string)
| RemoveLetterRepetitions
| ConcatWordArray
| RemoveTerm (ignore_case : bool) (term : option string)
| RemoveExactTerms (ignore_case : bool) (terms : option (list string))
| RemoveEmptyStrings
| RemoveDigits (replacement_token : Re.plain_token)
| Lemmatize (lemma : string -> string)
| RemoveNonAlphabet.

(** *** Constructors ([__init__]) *)

Definition special_token (key : ascii) : bool :=
  Ascii.eqb key "#" || Ascii.eqb key "@" || Ascii.eqb key "<"
  || Ascii.eqb key ">".

Definition RemovePunctuationFromWords__init__ (remove_all : bool) : PreProcessor :=
  if remove_all
  then RemovePunctuationFromWords (maketrans (fun _ => true) " " punctuation)
  else RemovePunctuationFromWords
         (maketrans (fun key => negb (special_token key)) " " punctuation).

Definition ReplaceUsernameMention__init__ : PreProcessor :=
  ReplaceUsernameMention (Re.plain "<USERNAME>" eq_refl).

Definition ReplaceURL__init__ : PreProcessor :=
  ReplaceURL (Re.plain "<URL>" eq_refl).

Definition RemoveRT__init__ : PreProcessor := RemoveRT "".

(** [self.term] is set only under [if self.ignore_case]. *)
Definition RemoveTerm__init__ (term : string) (ignore_case : bool) : PreProcessor :=
  RemoveTerm ignore_case (if ignore_case then Some (lower term) else None).

(** [self.terms] is set only under [if self.ignore_case]. *)
Definition RemoveExactTerms__init__ (terms : list string) (ignore_case : bool)
  : PreProcessor :=
  RemoveExactTerms ignore_case
    (if ignore_case then Some (map lower terms) else None).

Definition RemoveDigits__init__ : PreProcessor :=
  RemoveDigits (Re.plain "" eq_refl).

(** *** [preprocess_text], class by class *)

Definition WordLengthFilter_preprocess_text (min_word_length : Z)
           (tweet_words : value) : result value :=
  Ok (VList (map strip
               (filter (fun word => (min_word_length <=? len (strip word))%Z)
                       (iter tweet_words)))).

Definition WordToLowercase_preprocess_text (tweet_words : value) : result value :=
  Ok (VList (map lower (iter tweet_words))).

Definition SplitWordByWhitespace_preprocess_text (tweet : value) : result value :=
  match tweet with
  | VStr s => Ok (VList (split s))
  | VList _ => Raise AttributeError
  end.

Definition RemovePunctuationFromWords_preprocess_text (translator : table)
           (tweet_words : value) : result value :=
  let removed_punctuations := map (translate translator) (iter tweet_words) in
  Ok (VList (flat_map split removed_punctuations)).

Definition ReplaceUsernameMention_preprocess_text (replacement_token : Re.plain_token)
           (text_words : value) : result value :=
  Ok (VList (map (Re.sub Re.mention
                         (Re.literal (Re.token_text replacement_token)))
                 (iter text_words))).

Definition ReplaceURL_preprocess_text (replacement_token : Re.plain_token)
           (text_words : value) : result value :=
  Ok (VList (map (Re.sub Re.url
                         (Re.literal (Re.token_text replacement_token)))
                 (iter text_words))).

Definition RemoveRT_preprocess_text (text_words : value) : result value :=
  Ok (VList (filter (fun word => negb (Re.match_rt word)) (iter text_words))).

Definition RemoveLetterRepetitions_preprocess_text (text_words : value)
  : result value :=
  Ok (VList (map (Re.sub Re.letter_repetition Re.group1) (iter text_words))).

Definition ConcatWordArray_preprocess_text (text_words : value) : result value :=
  Ok (VStr (join " " (iter text_words))).

(** The loop of [RemoveTerm.preprocess_text]; [self.term] is read once
    per word. *)
Fixpoint RemoveTerm_loop (ignore_case : bool) (term : option string)
         (new_array : list string) (text_words : list string)
  : result (list string) :=
  match text_words with
  | [] => Ok new_array
  | word :: rest =>
      let to_compare := if ignore_case then lower word else word in
      match term with
      | None => Raise AttributeError
      | Some t =>
          if negb (contains t to_compare)
          then RemoveTerm_loop ignore_case term (new_array ++ [word]) rest
          else RemoveTerm_loop ignore_case term new_array rest
      end
  end.

Definition RemoveTerm_preprocess_text (ignore_case : bool) (term : option string)
           (text_words : value) : result value :=
  bind (RemoveTerm_loop ignore_case term [] (iter text_words))
       (fun new_array => Ok (VList new_array)).

(** The loop of [RemoveExactTerms.preprocess_text]; [word] is rebound to
    its lower-case form before the test and the append. *)
Fixpoint RemoveExactTerms_loop (ignore_case : bool) (terms : option (list string))
         (new_array : list string) (text_words : list string)
  : result (list string) :=
  match text_words with
  | [] => Ok new_array
  | word :: rest =>
      let word := if ignore_case then lower word else word in
      match terms with
      | None => Raise AttributeError
      | Some ts =>
          if negb (mem word ts)
          then RemoveExactTerms_loop ignore_case terms (new_array ++ [word]) rest
          else RemoveExactTerms_loop ignore_case terms new_array rest
      end
  end.

Definition RemoveExactTerms_preprocess_text (ignore_case : bool)
           (terms : option (list string)) (text_words : value) : result value :=
  bind (RemoveExactTerms_loop ignore_case terms [] (iter text_words))
       (fun new_array => Ok (VList new_array)).

Definition RemoveEmptyStrings_preprocess_text (text_words : value) : result value :=
  Ok (VList (filter (fun word => truthy (strip word)) (iter text_words))).

Definition RemoveDigits_preprocess_text (replacement_token : Re.plain_token)
           (text_words : value) : result value :=
  Ok (VList (map (Re.sub Re.digits
                         (Re.literal (Re.token_text replacement_token)))
                 (iter text_words))).

Definition Lemmatize_preprocess_text (lemma : string -> string)
           (text_words : value) : result value :=
  Ok (VList (map lemma (iter text_words))).

Definition RemoveNonAlphabet_preprocess_text (text_words : value) : result value :=
  Ok (VList (map (Re.sub Re.non_alphabet (Re.literal "")) (iter text_words))).

(** Method dispatch. *)
Definition preprocess_text (self : PreProcessor) (tweet : value) : result value :=
  match self with
  | WordLengthFilter n => WordLengthFilter_preprocess_text n tweet
  | WordToLowercase => WordToLowercase_preprocess_text tweet
  | SplitWordByWhitespace => SplitWordByWhitespace_preprocess_text tweet
  | RemovePunctuationFromWords t => RemovePunctuationFromWords_preprocess_text t tweet
  | ReplaceUsernameMention tok => ReplaceUsernameMention_preprocess_text tok tweet
  | ReplaceURL tok => ReplaceURL_preprocess_text tok tweet
  | RemoveRT _ => RemoveRT_preprocess_text tweet
  | RemoveLetterRepetitions => RemoveLetterRepetitions_preprocess_text tweet
  | ConcatWordArray => ConcatWordArray_preprocess_text tweet
  | RemoveTerm ic t => RemoveTerm_preprocess_text ic t tweet
  | RemoveExactTerms ic ts => RemoveExactTerms_preprocess_text ic ts tweet
  | RemoveEmptyStrings => RemoveEmptyStrings_preprocess_text tweet
  | RemoveDigits tok => RemoveDigits_preprocess_text tok tweet
  | Lemmatize lemma => Lemmatize_preprocess_text lemma tweet
  | RemoveNonAlphabet => RemoveNonAlphabet_preprocess_text tweet
  end.

(** *** The drivers *)

(** [for preprocessor in preprocessors:
       tweet = preprocessor.preprocess_text(tweet)] *)
Fixpoint run_preprocessors (preprocessors : list PreProcessor) (tweet : value)
  : result value :=
  match preprocessors with
  | [] => Ok tweet
  | preprocessor :: rest =>
      bind (preprocess_text preprocessor tweet) (run_preprocessors rest)
  end.

(** [tweet.strip()]: only a [str] has the method. *)
Definition value_strip (tweet : value) : result string :=
  match tweet with
  | VStr s => Ok (strip s)
  | VList _ => Raise AttributeError
  end.

Fixpoint preprocess_strings_loop (preprocessors : list PreProcessor)
         (preprocessed_tweets : list string) (strings : list string)
  : result (list string) :=
  match strings with
  | [] => Ok preprocessed_tweets
  | tweet :: rest =>
      bind (run_preprocessors preprocessors (VStr tweet)) (fun tweet =>
      bind (value_strip tweet) (fun stripped =>
      if truthy stripped
      then preprocess_strings_loop preprocessors
             (preprocessed_tweets ++ [stripped]) rest
      else preprocess_strings_loop preprocessors preprocessed_tweets rest))
  end.

Definition preprocess_strings (strings : list string)
           (preprocessors : list PreProcessor) : result (list string) :=
  preprocess_strings_loop preprocessors [] strings.

(** *** Tweet records

    The class of the records is not part of this module: a tweet is an
    object with a [text] attribute and other attributes, [meta], that
    the drivers never touch.  Objects live in a store and a batch is a
    list of references into it, so that two entries of a batch may be
    the same object. *)

Section Tweets.

Variable M : Type.

Record Tweet : Type := mkTweet { text : value; meta : M }.

Definition loc := nat.
Definition heap := list Tweet.

(** [tweet.text = v] on the object itself. *)
Definition set_text (t : Tweet) (v : value) : Tweet := mkTweet v (meta t).

Fixpoint update (h : heap) (l : loc) (t : Tweet) : heap :=
  match h, l with
  | [], _ => []
  | _ :: h', O => t :: h'
  | x :: h', S k => x :: update h' k t
  end.

(** The memo of [copy.deepcopy]: the objects already copied, with their
    copies. *)
Definition memo := list (loc * loc).

Fixpoint memo_get (m : memo) (l : loc) : option loc :=
  match m with
  | [] => None
  | (k, v) :: m' => if Nat.eqb k l then Some v else memo_get m' l
  end.

(** [copy.deepcopy] of the elements of a list, left to right: an object
    met for the first time is copied into a new object, allocated at the
    end of the store; an object met again is replaced by the copy made
    before.  [None] stands for a reference that is not in the store,
    which no batch of a running program contains. *)
Fixpoint deepcopy_from (m : memo) (h : heap) (tweets : list loc)
  : option (heap * list loc) :=
  match tweets with
  | [] => Some (h, [])
  | l :: rest =>
      match memo_get m l with
      | Some l' =>
          match deepcopy_from m h rest with
          | Some (h', out) => Some (h', l' :: out)
          | None => None
          end
      | None =>
          match nth_error h l with
          | Some t =>
              let l' := List.length h in
              match deepcopy_from ((l, l') :: m) (h ++ [t]) rest with
              | Some (h', out) => Some (h', l' :: out)
              | None => None
              end
          | None => None
          end
      end
  end.

Definition deepcopy (h : heap) (tweets : list loc) : option (heap * list loc) :=
  deepcopy_from [] h tweets.

(** [for preprocessor in preprocessors:
       tweet.text = preprocessor.preprocess_text(tweet.text)]
    A call that raises leaves the store as the assignments before it
    made it. *)
Fixpoint assign_text_loop (h : heap) (tweet : loc)
         (preprocessors : list PreProcessor) : option (heap * result unit) :=
  match preprocessors with
  | [] => Some (h, Ok tt)
  | preprocessor :: rest =>
      match nth_error h tweet with
      | None => None
      | Some t =>
          match preprocess_text preprocessor (text t) with
          | Ok v => assign_text_loop (update h tweet (set_text t v)) tweet rest
          | Raise e => Some (h, Raise e)
          end
      end
  end.

(** [for tweet in tweets_copy: ...] *)
Fixpoint tweets_loop (h : heap) (tweets_copy : list loc)
         (preprocessors : list PreProcessor) : option (heap * result unit) :=
  match tweets_copy with
  | [] => Some (h, Ok tt)
  | tweet :: rest =>
      match assign_text_loop h tweet preprocessors with
      | Some (h', Ok _) => tweets_loop h' rest preprocessors
      | Some (h', Raise e) => Some (h', Raise e)
      | None => None
      end
  end.

(** The store after the call, and what the call returns or raises. *)
Definition preprocess_tweets (h : heap) (tweets : list loc)
           (preprocessors : list PreProcessor)
  : option (heap * result (list loc)) :=
  match deepcopy h tweets with
  | None => None
  | Some (h1, tweets_copy) =>
      match tweets_loop h1 tweets_copy preprocessors with
      | Some (h2, Ok _) => Some (h2, Ok tweets_copy)
      | Some (h2, Raise e) => Some (h2, Raise e)
      | None => None
      end
  end.

(** The batch refers to objects of the store only. *)
Definition well_formed (h : heap) (tweets : list loc) : Prop :=
  Forall (fun l => l < List.length h) tweets.

(** [n] runs of the pipeline, each on the result of the one before. *)
Fixpoint run_times (n : nat) (preprocessors : list PreProcessor) (v : value)
  : result value :=
  match n with
  | O => Ok v
  | S k => bind (run_preprocessors preprocessors v)
                (run_times k preprocessors)
  end.

End Tweets.

Arguments mkTweet {M} text meta.
Arguments text {M} t.
Arguments meta {M} t.
Arguments set_text {M} t v.
Arguments update {M} h l t.
Arguments deepcopy_from {M} m h tweets.
Arguments deepcopy {M} h tweets.
Arguments assign_text_loop {M} h tweet preprocessors.
Arguments tweets_loop {M} h tweets_copy preprocessors.
Arguments preprocess_tweets {M} h tweets preprocessors.
Arguments well_formed {M} h tweets.

End PreProcessing.

(* ------------------------------------------------------------------ *)
(** ** Vocabulary of the statements *)

Module Props.
Import PyStr PreProcessing.

(** Every character of [s] is in [p]. *)
Fixpoint all_chars (p : ascii -> bool) (s : string) : bool :=
  match s with
  | EmptyString => true
  | String c s' => p c && all_chars p s'
  end.

(** [s] without its characters outside [p]. *)
Fixpoint filter_chars (p : ascii -> bool) (s : string) : string :=
  match s with
  | EmptyString => EmptyString
  | String c s' => if p c then String c (filter_chars p s') else filter_chars p s'
  end.

(** The pipeline of the filter law of the string driver. *)
Definition filter_law_pipeline : list PreProcessor :=
  [SplitWordByWhitespace; RemoveEmptyStrings; ConcatWordArray].

(** The pipeline of the end-to-end scenario. *)
Definition scenario_pipeline : list PreProcessor :=
  [SplitWordByWhitespace;
   ReplaceUsernameMention__init__;
   ReplaceURL__init__;
   RemoveRT__init__;
   RemovePunctuationFromWords__init__ true;
   WordToLowercase;
   RemoveLetterRepetitions;
   RemoveEmptyStrings;
   ConcatWordArray].

Definition scenario_input : string :=
  "RT @user: Check this outttt!! http://t.co/abc123".

(** The final values of a batch: every input ran through the whole
    pipeline and ended as a [str]. *)
Definition finals_of (preprocessors : list PreProcessor)
           (strings finals : list string) : Prop :=
  Forall2 (fun s f => run_preprocessors preprocessors (VStr s) = Ok (VStr f))
          strings finals.

(** A character of [string.punctuation]. *)
Definition is_punctuation (c : ascii) : bool :=
  existsb (Ascii.eqb c) (list_ascii_of_string punctuation).

(** Words separated by single spaces: no whitespace but the space, no
    punctuation, no space at either end and no two spaces in a row.
    [word_next] tells that a character of a word must come next. *)
Fixpoint spaced_from (word_next : bool) (s : string) : bool :=
  match s with
  | EmptyString => negb word_next
  | String c s' =>
      if Ascii.eqb c " "
      then negb word_next && spaced_from true s'
      else negb (isspace c) && negb (is_punctuation c) && spaced_from false s'
  end.

Definition single_spaced (s : string) : bool :=
  match s with
  | EmptyString => true
  | String _ _ => spaced_from true s
  end.

(** [@[\S]+] matches somewhere in [s]: some [@] of [s] has a character
    that is not whitespace after it. *)
Fixpoint has_mention (s : string) : bool :=
  match s with
  | EmptyString => false
  | String c s' =>
      (Ascii.eqb c "@"
       && match s' with
          | String d _ => Re.not_space d
          | EmptyString => false
          end)
      || has_mention s'
  end.

(** [@[\S]+] matches the whole of [s]. *)
Definition mention_token (s : string) : bool :=
  match s with
  | String c (String d r) =>
      Ascii.eqb c "@" && all_chars Re.not_space (String d r)
  | _ => false
  end.

(** What [ReplaceUsernameMention] does to one word. *)
Definition mask : string -> string :=
  Re.sub Re.mention (Re.literal "<USERNAME>").

(** The mention mask read token by token: a word that is a mention
    becomes the placeholder, any other word is kept as it is. *)
Definition mask_whole_tokens (words : list string) : list string :=
  map (fun word => if mention_token word then "<USERNAME>" else word) words.

(** [s] is empty or starts with whitespace. *)
Definition at_space (s : string) : bool :=
  match s with
  | EmptyString => true
  | String c _ => isspace c
  end.

(** The state of [copy.deepcopy] part way through a batch of the store
    [h0]: the store has only grown, and the memo sends objects of [h0] to
    distinct new objects that hold what the originals hold. *)
Record copying {M : Type} (h0 : heap M) (m : memo) (h : heap M) : Prop :=
  { copying_le : List.length h0 <= List.length h;
    copying_prefix : firstn (List.length h0) h = h0;
    copying_memo :
      forall l l', memo_get m l = Some l' ->
                   l < List.length h0
                   /\ List.length h0 <= l' < List.length h
                   /\ nth_error h l' = nth_error h0 l;
    copying_inj :
      forall l1 l2 l', memo_get m l1 = Some l' -> memo_get m l2 = Some l' ->
                       l1 = l2 }.

(** A store of two tweets, the second with a blank text. *)
Definition two_tweets : heap string :=
  [mkTweet (VStr "Hello  World") "alice"; mkTweet (VStr "   ") "bob"].



(** What [RemoveLetterRepetitions] does to one word. *)
Definition squeeze : string -> string :=
  Re.sub Re.letter_repetition Re.group1.

(** No letter [a]..[z] of [s] is followed by two more of the same. *)
Fixpoint triple_free (s : string) : bool :=
  match s with
  | EmptyString => true
  | String a r =>
      negb (is_lower_az a
            && match r with
               | String b (String c _) => Ascii.eqb a b && Ascii.eqb a c
               | _ => false
               end)
      && triple_free r
  end.

(** [w] starts with [rt] or [RT], and no character of a word comes next. *)
Definition retweet_marker (w : string) : Prop :=
  exists rest,
    (w = ("rt" ++ rest)%string \/ w = ("RT" ++ rest)%string)
    /\ Re.is_word_opt (Re.head rest) = false.

(** The final value of an input string: the pre-processors applied one
    after the other, from left to right, each to what the one before it
    returned; a pre-processor that raises ends the run. *)
Definition final_value (preprocessors : list PreProcessor) (s : string)
  : result value :=
  fold_left (fun r p => bind r (preprocess_text p)) preprocessors (Ok (VStr s)).

(** [s] is empty or ends with whitespace. *)
Fixpoint ends_at_space (s : string) : bool :=
  match s with
  | EmptyString => true
  | String c s' =>
      match s' with
      | EmptyString => isspace c
      | String _ _ => ends_at_space s'
      end
  end.

(** [o] is the trimmed form of [f], and is not empty: [f] is [o] between
    two runs of whitespace, and [o] neither starts nor ends with
    whitespace. *)
Definition trimmed_of (f o : string) : Prop :=
  exists a b,
    f = (a ++ o ++ b)%string
    /\ all_chars isspace a = true /\ all_chars isspace b = true
    /\ at_space o = false /\ ends_at_space o = false.

(** What the string driver emits for the final values of a batch, in
    their order: the trimmed form of a final value, or nothing when the
    final value is whitespace only. *)
Inductive emits : list string -> list string -> Prop :=
| emits_nil : emits [] []
| emits_item (f o : string) (finals out : list string) :
    trimmed_of f o -> emits finals out -> emits (f :: finals) (o :: out)
| emits_blank (f : string) (finals out : list string) :
    all_chars isspace f = true -> emits finals out -> emits (f :: finals) out.

End Props.

(* ------------------------------------------------------------------ *)
(** ** Properties *)

Import PyStr PreProcessing Props.

(** *** The result monad and the loops with an accumulator *)

Lemma bind_ok_inv {A B : Type} (r : result A) (k : A -> result B) (b : B) :
  bind r k = Ok b -> exists a, r = Ok a /\ k a = Ok b.
Proof.
  destruct r as [a|e]; simpl; intros H.
  - exists a. split; [reflexivity | exact H].
  - discriminate H.
Qed.

Lemma RemoveTerm_loop_some (ic : bool) (t : string) (words acc : list string) :
  RemoveTerm_loop ic (Some t) acc words
  = Ok (acc ++ filter (fun word =>
                         negb (contains t (if ic then lower word else word)))
                      words).
Proof.
  revert acc. induction words as [|w ws IH]; intros acc; simpl.
  - now rewrite app_nil_r.
  - destruct (negb (contains t (if ic then lower w else w))).
    + rewrite IH, <- app_assoc. reflexivity.
    + apply IH.
Qed.

Lemma RemoveExactTerms_loop_some (ic : bool) (ts words acc : list string) :
  RemoveExactTerms_loop ic (Some ts) acc words
  = Ok (acc ++ filter (fun word => negb (mem word ts))
                      (map (fun word => if ic then lower word else word) words)).
Proof.
  revert acc. induction words as [|w ws IH]; intros acc; simpl.
  - now rewrite app_nil_r.
  - destruct (negb (mem (if ic then lower w else w) ts)).
    + rewrite IH, <- app_assoc. reflexivity.
    + apply IH.
Qed.

Lemma RemoveTerm_loop_unset (ic : bool) (w : string) (ws acc : list string) :
  RemoveTerm_loop ic None acc (w :: ws) = Raise AttributeError.
Proof. reflexivity. Qed.

Lemma RemoveExactTerms_loop_unset (ic : bool) (w : string) (ws acc : list string) :
  RemoveExactTerms_loop ic None acc (w :: ws) = Raise AttributeError.
Proof. reflexivity. Qed.

(** *** The string driver *)

Lemma preprocess_strings_loop_ok (ps : list PreProcessor)
      (strings finals acc : list string) :
  finals_of ps strings finals ->
  preprocess_strings_loop ps acc strings
  = Ok (acc ++ filter truthy (map strip finals)).
Proof.
  intros H. revert acc.
  induction H as [|s f strings finals Hs _ IH]; intros acc; simpl.
  - now rewrite app_nil_r.
  - rewrite Hs. simpl. destruct (truthy (strip f)).
    + rewrite IH, <- app_assoc. reflexivity.
    + apply IH.
Qed.

Lemma preprocess_strings_loop_inv (ps : list PreProcessor)
      (strings acc out : list string) :
  preprocess_strings_loop ps acc strings = Ok out ->
  exists finals,
    finals_of ps strings finals /\ out = acc ++ filter truthy (map strip finals).
Proof.
  revert acc. induction strings as [|s strings IH]; intros acc; simpl; intros H.
  - exists []. split; [constructor|]. simpl. rewrite app_nil_r. congruence.
  - apply bind_ok_inv in H. destruct H as [v [Hv H]].
    apply bind_ok_inv in H. destruct H as [stripped [Hst H]].
    destruct v as [f|ws]; simpl in Hst; [|discriminate Hst].
    injection Hst as <-.
    destruct (truthy (strip f)) eqn:Htr.
    + apply IH in H. destruct H as [finals [Hf Hout]].
      exists (f :: finals). split; [constructor; assumption|].
      simpl. rewrite Htr, Hout, <- app_assoc. reflexivity.
    + apply IH in H. destruct H as [finals [Hf Hout]].
      exists (f :: finals). split; [constructor; assumption|].
      simpl. rewrite Htr. exact Hout.
Qed.

Lemma finals_of_length (ps : list PreProcessor) (strings finals : list string) :
  finals_of ps strings finals -> List.length finals = List.length strings.
Proof. intros H. symmetry. exact (Forall2_length H). Qed.

Lemma filter_length_le {A : Type} (f : A -> bool) (l : list A) :
  List.length (filter f l) <= List.length l.
Proof.
  induction l as [|x l IH]; simpl; [lia|]. destruct (f x); simpl; lia.
Qed.

(** *** The end-to-end scenario *)

(** C4, as stated, fails: the scenario does not produce
    ["<username> check this out <url>"]. *)
Lemma scenario_keeps_no_angle_brackets :
  preprocess_strings [scenario_input] scenario_pipeline
  <> Ok ["<username> check this out <url>"].
Proof. vm_compute. discriminate. Qed.

(** C4, amended.  With [remove_all] set, the punctuation step also turns the
    [<] and [>] of the two placeholders into spaces, so the scenario produces
    ["username check this out url"]; step by step, the words are those listed
    below. *)
Theorem scenario_output :
  preprocess_strings [scenario_input] scenario_pipeline
  = Ok ["username check this out url"]
  /\ run_preprocessors (firstn 4 scenario_pipeline) (VStr scenario_input)
     = Ok (VList ["<USERNAME>"; "Check"; "this"; "outttt!!"; "<URL>"])
  /\ run_preprocessors (firstn 5 scenario_pipeline) (VStr scenario_input)
     = Ok (VList ["USERNAME"; "Check"; "this"; "outttt"; "URL"])
  /\ run_preprocessors (firstn 7 scenario_pipeline) (VStr scenario_input)
     = Ok (VList ["username"; "check"; "this"; "out"; "url"]).
Proof. repeat split; vm_compute; reflexivity. Qed.

(** *** Attributes that [__init__] leaves unset *)

(** Every pre-processor whose attributes are all set returns on a list of
    words, and on a whole string too, except that only a string can be
    split. *)
Lemma preprocess_text_returns (p : PreProcessor) (v : value) :
  (forall ic, p <> RemoveTerm ic None) ->
  (forall ic, p <> RemoveExactTerms ic None) ->
  (p = SplitWordByWhitespace -> exists s, v = VStr s) ->
  exists v', preprocess_text p v = Ok v'.
Proof.
  intros Ht Hts Hsplit.
  destruct p as [n| | |t|tok|tok|tok| | |ic [t|]|ic [ts|]| |tok|lemma| ];
    simpl; try (eexists; reflexivity).
  - destruct (Hsplit eq_refl) as [s ->]. eexists; reflexivity.
  - unfold RemoveTerm_preprocess_text. rewrite RemoveTerm_loop_some.
    eexists; reflexivity.
  - exfalso. exact (Ht ic eq_refl).
  - unfold RemoveExactTerms_preprocess_text. rewrite RemoveExactTerms_loop_some.
    eexists; reflexivity.
  - exfalso. exact (Hts ic eq_refl).
Qed.

(** C5.  Built with [ignore_case=False], [RemoveTerm] and [RemoveExactTerms]
    have no [term] (no [terms]) attribute, and [preprocess_text] raises
    [AttributeError] at the first word of any non-empty list of words. *)
Theorem unset_term_raises (term : string) (terms : list string)
        (word : string) (rest : list string) :
  preprocess_text (RemoveTerm__init__ term false) (VList (word :: rest))
  = Raise AttributeError
  /\ preprocess_text (RemoveExactTerms__init__ terms false) (VList (word :: rest))
     = Raise AttributeError
  /\ preprocess_text (RemoveTerm__init__ "a" false) (VList ["abc"])
     = Raise AttributeError.
Proof. repeat split. Qed.

(** C6.  [RemoveExactTerms] built with [ignore_case=False] never compares a
    word with the terms it was given: on any non-empty list of words
    [preprocess_text] raises [AttributeError], and only the empty list is
    returned.  In particular the word ["Hello"], which is none of the terms
    [["bye"]], is not kept. *)
Theorem RemoveExactTerms_case_sensitive_raises (terms : list string)
        (word : string) (rest : list string) :
  preprocess_text (RemoveExactTerms__init__ terms false) (VList (word :: rest))
  = Raise AttributeError
  /\ preprocess_text (RemoveExactTerms__init__ terms false) (VList [])
     = Ok (VList [])
  /\ preprocess_text (RemoveExactTerms__init__ ["bye"] false) (VList ["Hello"])
     <> Ok (VList ["Hello"]).
Proof. repeat split. discriminate. Qed.

(** *** [RemoveExactTerms], ignoring case *)

Lemma filter_map_origin {A B : Type} (f : A -> B) (keep : B -> bool)
      (l : list A) (y : B) :
  In y (filter keep (map f l)) -> exists x, In x l /\ y = f x /\ keep y = true.
Proof.
  intros H. apply filter_In in H. destruct H as [Hin Hk].
  apply in_map_iff in Hin. destruct Hin as [x [<- Hx]].
  exists x. auto.
Qed.

(** C10.  Built with [ignore_case=True], [RemoveExactTerms] returns the
    lower-case forms of the words whose lower-case form is none of the
    lower-cased terms: a word that is kept comes out in lower case, not as
    it came in.  [["Hello"]] with the terms [["bye"]] gives [["hello"]]. *)
Theorem RemoveExactTerms_lowercases_kept_words
        (terms : list string) (words : list string) :
  preprocess_text (RemoveExactTerms__init__ terms true) (VList words)
  = Ok (VList (filter (fun word => negb (mem word (map lower terms)))
                      (map lower words)))
  /\ (forall out,
         preprocess_text (RemoveExactTerms__init__ terms true) (VList words)
         = Ok (VList out) ->
         Forall (fun kept => exists word,
                     In word words /\ kept = lower word
                     /\ mem (lower word) (map lower terms) = false) out)
  /\ preprocess_text (RemoveExactTerms__init__ ["bye"] true) (VList ["Hello"])
     = Ok (VList ["hello"]).
Proof.
  assert (E : preprocess_text (RemoveExactTerms__init__ terms true) (VList words)
              = Ok (VList (filter (fun word => negb (mem word (map lower terms)))
                                  (map lower words)))).
  { simpl. unfold RemoveExactTerms_preprocess_text.
    rewrite RemoveExactTerms_loop_some. reflexivity. }
  split; [exact E | split; [|reflexivity]].
  intros out H. rewrite E in H. injection H as <-.
  apply Forall_forall. intros y Hy.
  apply filter_map_origin in Hy. destruct Hy as [x [Hx [-> Hk]]].
  exists x. repeat split; try assumption.
  now apply negb_true_iff in Hk.
Qed.

(** C10 on three words, one of them a term. *)
Lemma RemoveExactTerms_lowercases_kept_words_witness :
  Forall (fun kept => exists word,
              In word ["Hello"; "BYE"; "Now"] /\ kept = lower word
              /\ mem (lower word) (map lower ["Bye"]) = false)
         ["hello"; "now"].
Proof.
  apply (proj1 (proj2 (RemoveExactTerms_lowercases_kept_words
                         ["Bye"] ["Hello"; "BYE"; "Now"]))).
  reflexivity.
Defined.

(** *** Idempotent pre-processors *)

Lemma lower_char_idem (c : ascii) : lower_char (lower_char c) = lower_char c.
Proof.
  destruct c as [b0 b1 b2 b3 b4 b5 b6 b7].
  destruct b0, b1, b2, b3, b4, b5, b6, b7; reflexivity.
Qed.

Lemma lower_idem (s : string) : lower (lower s) = lower s.
Proof.
  induction s as [|c s IH]; simpl; [reflexivity|].
  now rewrite lower_char_idem, IH.
Qed.

Lemma filter_idem {A : Type} (f : A -> bool) (l : list A) :
  filter f (filter f l) = filter f l.
Proof.
  induction l as [|x l IH]; simpl; [reflexivity|].
  destruct (f x) eqn:E; simpl; [rewrite E, IH|]; auto.
Qed.

Lemma filter_chars_idem (p : ascii -> bool) (s : string) :
  filter_chars p (filter_chars p s) = filter_chars p s.
Proof.
  induction s as [|c s IH]; simpl; [reflexivity|].
  destruct (p c) eqn:E; simpl; [rewrite E, IH|]; auto.
Qed.

(** Deleting the matches of [[p]+] deletes the characters in [p]; the same
    holds while [k] characters of a match are still to be dropped. *)
Lemma sub_from_plus_deletes (p : ascii -> bool) (s : string) (k : nat) :
  k <= Re.run p s ->
  Re.sub_from (Re.plus p) (Re.literal "") k s
  = filter_chars (fun c => negb (p c)) s.
Proof.
  revert k. induction s as [|c s IH]; intros k Hk; simpl in Hk.
  - assert (k = 0) by lia. subst k. reflexivity.
  - destruct k as [|k].
    + simpl. unfold Re.plus at 1. simpl. destruct (p c) eqn:Hp; simpl.
      * apply IH. lia.
      * f_equal. apply IH. lia.
    + destruct (p c) eqn:Hp; [|lia]. simpl. rewrite Hp. simpl.
      apply IH. lia.
Qed.

(** The same for [[p]*], whose empty matches are replaced by nothing. *)
Lemma sub_from_star_deletes (p : ascii -> bool) (s : string) (k : nat) :
  k <= Re.run p s ->
  Re.sub_from (Re.star p) (Re.literal "") k s
  = filter_chars (fun c => negb (p c)) s.
Proof.
  revert k. induction s as [|c s IH]; intros k Hk; simpl in Hk.
  - assert (k = 0) by lia. subst k. reflexivity.
  - destruct k as [|k].
    + simpl. unfold Re.star at 1. simpl. destruct (p c) eqn:Hp; simpl.
      * apply IH. lia.
      * f_equal. apply IH. lia.
    + destruct (p c) eqn:Hp; [|lia]. simpl. rewrite Hp. simpl.
      apply IH. lia.
Qed.

Lemma RemoveDigits_deletes_digits (s : string) :
  Re.sub Re.digits (Re.literal "") s
  = filter_chars (fun c => negb (is_digit c)) s.
Proof. apply sub_from_plus_deletes. lia. Qed.

Lemma RemoveNonAlphabet_keeps_letters (s : string) :
  Re.sub Re.non_alphabet (Re.literal "") s
  = filter_chars (fun c => negb (negb (is_alpha_az c))) s.
Proof.
  exact (sub_from_star_deletes (fun c => negb (is_alpha_az c)) s 0 (Nat.le_0_l _)).
Qed.

Lemma map_idem {A : Type} (f : A -> A) (l : list A) :
  (forall x, f (f x) = f x) -> map f (map f l) = map f l.
Proof.
  intros H. rewrite map_map. apply map_ext. exact H.
Qed.

(** C7.  [WordToLowercase], [RemoveDigits], [RemoveNonAlphabet] and
    [RemoveEmptyStrings] are idempotent on lists of words: each returns, and
    a second application to what it returned returns the same list. *)
Theorem idempotent_preprocessors (words : list string) :
  let twice p := bind (preprocess_text p (VList words)) (preprocess_text p) in
  let returns p := exists out, preprocess_text p (VList words) = Ok (VList out) in
  (twice WordToLowercase = preprocess_text WordToLowercase (VList words)
   /\ returns WordToLowercase)
  /\ (twice RemoveDigits__init__ = preprocess_text RemoveDigits__init__ (VList words)
      /\ returns RemoveDigits__init__)
  /\ (twice RemoveNonAlphabet = preprocess_text RemoveNonAlphabet (VList words)
      /\ returns RemoveNonAlphabet)
  /\ (twice RemoveEmptyStrings = preprocess_text RemoveEmptyStrings (VList words)
      /\ returns RemoveEmptyStrings).
Proof.
  simpl. repeat split; try (eexists; reflexivity).
  - unfold WordToLowercase_preprocess_text. simpl.
    now rewrite (map_idem lower words lower_idem).
  - unfold RemoveDigits_preprocess_text. simpl. do 2 f_equal.
    apply map_idem. intros s.
    rewrite !RemoveDigits_deletes_digits. apply filter_chars_idem.
  - unfold RemoveNonAlphabet_preprocess_text. simpl. do 2 f_equal.
    apply map_idem. intros s.
    rewrite !RemoveNonAlphabet_keeps_letters. apply filter_chars_idem.
  - unfold RemoveEmptyStrings_preprocess_text. simpl.
    now rewrite filter_idem.
Qed.

(** *** Splitting and joining *)

Lemma append_nil_r (s : string) : (s ++ "")%string = s.
Proof. induction s as [|c s IH]; simpl; [reflexivity | now rewrite IH]. Qed.

Lemma append_assoc (a b c : string) :
  ((a ++ b) ++ c)%string = (a ++ (b ++ c))%string.
Proof. induction a as [|x a IH]; simpl; [reflexivity | now rewrite IH]. Qed.

Lemma truthy_append_char (cur : string) (c : ascii) :
  truthy (cur ++ String c "") = true.
Proof. destruct cur; reflexivity. Qed.

Lemma split_from_word (cur s : string) :
  truthy cur = true -> exists w ws, split_from cur s = w :: ws.
Proof.
  revert cur. induction s as [|c s IH]; intros cur Hcur; simpl.
  - rewrite Hcur. eauto.
  - destruct (isspace c).
    + rewrite Hcur. eauto.
    + apply IH. apply truthy_append_char.
Qed.

Lemma join_cons (sep w w' : string) (ws : list string) :
  join sep (w :: w' :: ws) = (w ++ sep ++ join sep (w' :: ws))%string.
Proof. reflexivity. Qed.

Lemma spaced_from_true_inv (s : string) :
  spaced_from true s = true ->
  exists c s', s = String c s' /\ isspace c = false /\ spaced_from false s' = true.
Proof.
  destruct s as [|c s']; simpl; [discriminate|].
  destruct (Ascii.eqb c " "); simpl; [discriminate|].
  intros H. apply andb_true_iff in H. destruct H as [H H3].
  apply andb_true_iff in H. destruct H as [H1 _].
  apply negb_true_iff in H1. eauto.
Qed.

(** Inside a word ([cur] is what was read of it) and at the start of a
    word, splitting what follows and joining the words with single spaces
    gives the text back. *)
Lemma join_split_from (s : string) :
  (forall cur, truthy cur = true -> spaced_from false s = true ->
               join " " (split_from cur s) = (cur ++ s)%string)
  /\ (spaced_from true s = true -> join " " (split_from "" s) = s).
Proof.
  induction s as [|c s [IH1 IH2]].
  - split.
    + intros cur Hcur _. simpl. rewrite Hcur. simpl. now rewrite append_nil_r.
    + discriminate.
  - split.
    + intros cur Hcur H. simpl in H. simpl.
      destruct (Ascii.eqb_spec c " ") as [->|Hc].
      * simpl in H. change (isspace " ") with true. cbv iota. rewrite Hcur.
        destruct (spaced_from_true_inv _ H) as [c2 [s2 [-> [Hsp _]]]].
        assert (Hw : exists w ws, split_from "" (String c2 s2) = w :: ws).
        { simpl. rewrite Hsp. apply split_from_word. reflexivity. }
        destruct Hw as [w [ws Hw]].
        specialize (IH2 H). rewrite Hw in IH2 |- *.
        rewrite join_cons, IH2. reflexivity.
      * apply andb_true_iff in H. destruct H as [H H3].
        apply andb_true_iff in H. destruct H as [H1 _].
        apply negb_true_iff in H1. rewrite H1.
        rewrite (IH1 _ (truthy_append_char cur c) H3).
        now rewrite append_assoc.
    + intros H.
      destruct (spaced_from_true_inv _ H) as [c2 [s2 [E [Hsp H2]]]].
      injection E as <- <-. simpl. rewrite Hsp.
      exact (IH1 (String c "") eq_refl H2).
Qed.

(** C8.  On a text made of words separated by single spaces, without
    punctuation and without a space at either end, [SplitWordByWhitespace]
    followed by [ConcatWordArray] returns the text itself. *)
Theorem split_concat_round_trip (s : string) :
  single_spaced s = true ->
  run_preprocessors [SplitWordByWhitespace; ConcatWordArray] (VStr s)
  = Ok (VStr s).
Proof.
  intros H. simpl. unfold ConcatWordArray_preprocess_text. simpl.
  do 2 f_equal. destruct s as [|c s]; [reflexivity|].
  exact (proj2 (join_split_from (String c s)) H).
Qed.

(** C8 on three words. *)
Lemma split_concat_round_trip_witness :
  single_spaced "hello big world" = true
  /\ run_preprocessors [SplitWordByWhitespace; ConcatWordArray]
                       (VStr "hello big world")
     = Ok (VStr "hello big world").
Proof.
  split; [reflexivity|].
  apply (split_concat_round_trip "hello big world"). reflexivity.
Defined.

(** *** Masking mentions *)

Lemma sub_from_skip (m : Re.matcher) (repl : string -> string) (r rest : string) :
  Re.sub_from m repl (String.length r) (r ++ rest) = Re.sub_from m repl 0 rest.
Proof. induction r as [|c r IH]; simpl; [reflexivity | exact IH]. Qed.

Lemma run_not_space_word (r rest : string) :
  all_chars Re.not_space r = true -> at_space rest = true ->
  Re.run Re.not_space (r ++ rest) = String.length r.
Proof.
  intros Hr Hrest. induction r as [|c r IH]; simpl in *.
  - destruct rest as [|d rest]; [reflexivity|]. simpl in *.
    unfold Re.not_space. now rewrite Hrest.
  - apply andb_true_iff in Hr. destruct Hr as [Hc Hr].
    rewrite Hc, (IH Hr). reflexivity.
Qed.

Lemma mask_at_mention (r rest : string) :
  r <> "" -> all_chars Re.not_space r = true -> at_space rest = true ->
  mask (String "@" (r ++ rest)) = ("<USERNAME>" ++ mask rest)%string.
Proof.
  intros Hne Hr Hrest. unfold mask, Re.sub.
  cbn [Re.sub_from Re.mention]. change (Ascii.eqb "@" "@") with true. cbv iota.
  unfold Re.plus. rewrite (run_not_space_word r rest Hr Hrest).
  destruct r as [|c r]; [congruence|].
  cbn [String.length]. cbv iota beta.
  unfold Re.literal at 1.
  now rewrite (sub_from_skip Re.mention _ (String c r) rest).
Qed.

Lemma mask_no_match_here (c : ascii) (s : string) :
  (Ascii.eqb c "@"
   && match s with String d _ => Re.not_space d | EmptyString => false end)
  = false ->
  mask (String c s) = String c (mask s).
Proof.
  intros H. unfold mask, Re.sub. cbn [Re.sub_from Re.mention].
  destruct (Ascii.eqb c "@"); simpl in H; [|reflexivity].
  unfold Re.plus. destruct s as [|d s]; simpl; [reflexivity|].
  simpl in H. rewrite H. reflexivity.
Qed.

Lemma mask_without_mention (w : string) : has_mention w = false -> mask w = w.
Proof.
  induction w as [|c w IH]; [reflexivity|]. simpl. intros H.
  apply orb_false_iff in H. destruct H as [H1 H2].
  rewrite (mask_no_match_here c w H1), (IH H2). reflexivity.
Qed.

Lemma head_append (a b : string) (c : ascii) :
  match (a ++ String c b)%string with
  | String d _ => Re.not_space d
  | EmptyString => false
  end
  = match (a ++ String c "")%string with
    | String d _ => Re.not_space d
    | EmptyString => false
    end.
Proof. destruct a; reflexivity. Qed.

Lemma mask_first_mention (pre r rest : string) :
  has_mention (pre ++ "@") = false ->
  r <> "" -> all_chars Re.not_space r = true -> at_space rest = true ->
  mask (pre ++ "@" ++ r ++ rest) = (pre ++ "<USERNAME>" ++ mask rest)%string.
Proof.
  intros Hpre Hne Hr Hrest.
  change ("@" ++ r ++ rest)%string with (String "@" (r ++ rest)).
  induction pre as [|c pre IH].
  - exact (mask_at_mention r rest Hne Hr Hrest).
  - simpl in Hpre. apply orb_false_iff in Hpre. destruct Hpre as [H1 H2].
    change (String c pre ++ String "@" (r ++ rest))%string
      with (String c (pre ++ String "@" (r ++ rest))).
    rewrite mask_no_match_here.
    + rewrite (IH H2). reflexivity.
    + rewrite head_append. exact H1.
Qed.

Lemma mask_mention_token (w : string) :
  mention_token w = true -> mask w = "<USERNAME>".
Proof.
  destruct w as [|c [|d r]]; try discriminate. unfold mention_token.
  intros H. apply andb_true_iff in H. destruct H as [Hc Hr].
  apply Ascii.eqb_eq in Hc. subst c.
  rewrite <- (append_nil_r (String d r)).
  rewrite (mask_at_mention (String d r) "" ltac:(discriminate) Hr eq_refl).
  reflexivity.
Qed.

(** C9, as stated, fails: in ["x@y"], which is not a mention as a whole, the
    mention inside is masked, and the word is neither left as it is nor
    replaced by the placeholder. *)
Lemma mention_inside_word_is_masked :
  ~ (forall words,
        preprocess_text ReplaceUsernameMention__init__ (VList words)
        = Ok (VList (mask_whole_tokens words)))
  /\ mention_token "x@y" = false
  /\ preprocess_text ReplaceUsernameMention__init__ (VList ["x@y"])
     = Ok (VList ["x<USERNAME>"]).
Proof.
  split; [|split; reflexivity].
  intros H. specialize (H ["x@y"]). vm_compute in H. discriminate H.
Qed.

(** C9, amended.  [ReplaceUsernameMention] with its default token maps every
    word through [mask], which replaces each match of [@[\S]+] inside the
    word: a word that is a mention as a whole becomes the placeholder; a
    word in which no [@] has a non-whitespace character after it is left as
    it is; otherwise the text before the first match is kept, the match,
    which runs up to the next whitespace, becomes the placeholder, and the
    rest is masked in the same way.  [["@alice"; "hello"]] gives
    [["<USERNAME>"; "hello"]]. *)
Theorem ReplaceUsernameMention_masks_matches (words : list string) :
  preprocess_text ReplaceUsernameMention__init__ (VList words)
  = Ok (VList (map mask words))
  /\ (forall w, mention_token w = true -> mask w = "<USERNAME>")
  /\ (forall w, has_mention w = false -> mask w = w)
  /\ (forall pre r rest,
         has_mention (pre ++ "@") = false ->
         r <> "" -> all_chars Re.not_space r = true -> at_space rest = true ->
         mask (pre ++ "@" ++ r ++ rest) = (pre ++ "<USERNAME>" ++ mask rest)%string)
  /\ preprocess_text ReplaceUsernameMention__init__ (VList ["@alice"; "hello"])
     = Ok (VList ["<USERNAME>"; "hello"]).
Proof.
  split; [reflexivity|].
  split; [exact mask_mention_token|].
  split; [exact mask_without_mention|].
  split; [exact mask_first_mention | reflexivity].
Qed.

(** C9, amended, on a mention, on a word without one and on a word with a
    mention inside. *)
Lemma ReplaceUsernameMention_masks_matches_witness :
  mask "@alice" = "<USERNAME>"
  /\ mask "hello@" = "hello@"
  /\ mask "x@y z" = "x<USERNAME> z".
Proof.
  pose proof (ReplaceUsernameMention_masks_matches []) as [_ [H1 [H2 [H3 _]]]].
  split; [|split].
  - apply H1. reflexivity.
  - apply H2. reflexivity.
  - apply (H3 "x" "y" " z"); [reflexivity | discriminate | reflexivity | reflexivity].
Defined.

(** *** The record driver: the store *)

Section Store.

Variable M : Type.

Implicit Types (h : heap M) (t : Tweet M) (l : loc).

Lemma length_update h l t : List.length (update h l t) = List.length h.
Proof.
  revert l. induction h as [|x h IH]; intros [|l]; simpl; auto.
Qed.

Lemma nth_error_update_eq h l t :
  l < List.length h -> nth_error (update h l t) l = Some t.
Proof.
  revert l. induction h as [|x h IH]; intros [|l]; simpl; intros H;
    try lia; auto. apply IH. lia.
Qed.

Lemma nth_error_update_neq h l l' t :
  l <> l' -> nth_error (update h l t) l' = nth_error h l'.
Proof.
  revert l l'. induction h as [|x h IH]; intros [|l] [|l']; simpl; intros H;
    try congruence; auto.
Qed.

Lemma firstn_ext (n : nat) h h' :
  n <= List.length h -> n <= List.length h' ->
  (forall l, l < n -> nth_error h' l = nth_error h l) ->
  firstn n h' = firstn n h.
Proof.
  revert h h'. induction n as [|n IH]; intros h h' Hh Hh' H; [reflexivity|].
  destruct h as [|x h]; [simpl in Hh; lia|].
  destruct h' as [|x' h']; [simpl in Hh'; lia|].
  simpl in *. f_equal.
  - specialize (H 0 ltac:(lia)). simpl in H. congruence.
  - apply IH; try lia. intros l Hl. apply (H (S l)). lia.
Qed.

(** One record through the pipeline. *)

Lemma assign_text_loop_frame h h' l ps (r : result unit) :
  assign_text_loop h l ps = Some (h', r) ->
  List.length h' = List.length h
  /\ (forall l', l' <> l -> nth_error h' l' = nth_error h l').
Proof.
  revert h. induction ps as [|p ps IH]; intros h H; simpl in H.
  - injection H as <- <-. auto.
  - destruct (nth_error h l) as [t|] eqn:Ht; [|discriminate].
    destruct (preprocess_text p (text t)) as [v|e].
    + apply IH in H. destruct H as [Hlen Hfr].
      rewrite length_update in Hlen. split; [exact Hlen|].
      intros l' Hl'. rewrite (Hfr l' Hl').
      apply nth_error_update_neq. congruence.
    + injection H as <- <-. auto.
Qed.

Lemma assign_text_loop_ok h h' l ps (u : unit) t :
  assign_text_loop h l ps = Some (h', Ok u) ->
  nth_error h l = Some t ->
  exists t',
    nth_error h' l = Some t' /\ meta t' = meta t
    /\ run_preprocessors ps (text t) = Ok (text t').
Proof.
  revert h t. induction ps as [|p ps IH]; intros h t H Ht; simpl in H.
  - injection H as <- _. exists t. auto.
  - rewrite Ht in H. simpl.
    destruct (preprocess_text p (text t)) as [v|e]; [|discriminate].
    assert (Hl : l < List.length h).
    { apply nth_error_Some. congruence. }
    destruct (IH _ (set_text t v) H (nth_error_update_eq h l _ Hl))
      as [t' [H1 [H2 H3]]].
    exists t'. auto.
Qed.

Lemma assign_text_loop_total h l ps :
  l < List.length h -> exists h' r, assign_text_loop h l ps = Some (h', r).
Proof.
  revert h. induction ps as [|p ps IH]; intros h Hl; simpl.
  - eauto.
  - destruct (nth_error h l) as [t|] eqn:Ht.
    + destruct (preprocess_text p (text t)) as [v|e]; [|eauto].
      apply IH. now rewrite length_update.
    + apply nth_error_None in Ht. lia.
Qed.

Lemma assign_text_loop_returns h l ps t (v : value) :
  nth_error h l = Some t ->
  run_preprocessors ps (text t) = Ok v ->
  exists h', assign_text_loop h l ps = Some (h', Ok tt).
Proof.
  revert h t. induction ps as [|p ps IH]; intros h t Ht Hv; simpl.
  - eauto.
  - rewrite Ht. simpl in Hv.
    destruct (preprocess_text p (text t)) as [w|e]; [|discriminate].
    simpl in Hv. apply (IH _ (set_text t w)); [|exact Hv].
    apply nth_error_update_eq. apply nth_error_Some. congruence.
Qed.

(** The loop over the copies. *)

Lemma tweets_loop_frame h h' (copies : list loc) ps (r : result unit) :
  tweets_loop h copies ps = Some (h', r) ->
  List.length h' = List.length h
  /\ (forall l, ~ In l copies -> nth_error h' l = nth_error h l).
Proof.
  revert h. induction copies as [|c copies IH]; intros h H; simpl in H.
  - injection H as <- <-. auto.
  - destruct (assign_text_loop h c ps) as [[h1 [u|e]]|] eqn:Ha;
      [|injection H as <- <-|discriminate].
    + apply assign_text_loop_frame in Ha. destruct Ha as [Hlen1 Hfr1].
      apply IH in H. destruct H as [Hlen Hfr]. split; [congruence|].
      intros l Hl. simpl in Hl. rewrite Hfr by tauto.
      apply Hfr1. intuition congruence.
    + apply assign_text_loop_frame in Ha. destruct Ha as [Hlen1 Hfr1].
      split; [exact Hlen1|]. intros l Hl. simpl in Hl.
      apply Hfr1. intuition congruence.
Qed.

Lemma tweets_loop_ok h h' (copies : list loc) ps (u : unit) l t :
  tweets_loop h copies ps = Some (h', Ok u) ->
  nth_error h l = Some t ->
  exists t',
    nth_error h' l = Some t' /\ meta t' = meta t
    /\ run_times (count_occ Nat.eq_dec copies l) ps (text t) = Ok (text t').
Proof.
  revert h t. induction copies as [|c copies IH]; intros h t H Ht; simpl in H.
  - injection H as <-. exists t. auto.
  - destruct (assign_text_loop h c ps) as [[h1 [u1|e]]|] eqn:Ha;
      try discriminate.
    simpl. destruct (Nat.eq_dec c l) as [->|Hne].
    + destruct (assign_text_loop_ok _ _ _ _ _ _ Ha Ht) as [t1 [H1 [H2 H3]]].
      destruct (IH _ _ H H1) as [t' [H4 [H5 H6]]].
      exists t'. split; [exact H4|]. split; [congruence|].
      simpl. rewrite H3. exact H6.
    + apply assign_text_loop_frame in Ha. destruct Ha as [_ Hfr].
      apply (IH h1 t H). rewrite Hfr by congruence. exact Ht.
Qed.

Lemma tweets_loop_total h (copies : list loc) ps :
  Forall (fun l => l < List.length h) copies ->
  exists h' r, tweets_loop h copies ps = Some (h', r).
Proof.
  intros H. revert h H. induction copies as [|c copies IH]; intros h H; simpl.
  - eauto.
  - inversion H as [|? ? Hc Hcs]; subst.
    destruct (assign_text_loop_total h c ps Hc) as [h1 [[u|e] Ha]];
      rewrite Ha; [|eauto].
    apply IH. apply assign_text_loop_frame in Ha. destruct Ha as [Hlen _].
    rewrite Hlen. exact Hcs.
Qed.

Lemma tweets_loop_returns h (copies : list loc) ps :
  NoDup copies ->
  (forall l, In l copies ->
             exists t v, nth_error h l = Some t
                         /\ run_preprocessors ps (text t) = Ok v) ->
  exists h', tweets_loop h copies ps = Some (h', Ok tt).
Proof.
  intros Hnd. revert h. induction Hnd as [|c copies Hc Hnd IH]; intros h H; simpl.
  - eauto.
  - destruct (H c (or_introl eq_refl)) as [t [v [Ht Hv]]].
    destruct (assign_text_loop_returns h c ps t v Ht Hv) as [h1 Ha].
    rewrite Ha. apply IH. intros l Hl.
    destruct (H l (or_intror Hl)) as [t' [v' [Ht' Hv']]].
    exists t', v'. split; [|exact Hv'].
    apply assign_text_loop_frame in Ha. destruct Ha as [_ Hfr].
    rewrite Hfr; [exact Ht'|]. intros ->. contradiction.
Qed.

End Store.

(** *** The record driver: the deep copy *)

Section DeepCopy.

Variable M : Type.

Implicit Types (h : heap M) (t : Tweet M) (l : loc) (m : memo).

Lemma nth_error_lt_some h l :
  l < List.length h -> exists t, nth_error h l = Some t.
Proof.
  intros Hl. destruct (nth_error h l) as [t|] eqn:Ht; [eauto|].
  apply nth_error_None in Ht. lia.
Qed.

Lemma copying_start h : copying h [] h.
Proof.
  constructor.
  - lia.
  - apply firstn_all.
  - discriminate.
  - discriminate.
Qed.

Lemma nth_error_prefix h0 h l :
  firstn (List.length h0) h = h0 -> l < List.length h0 ->
  nth_error h l = nth_error h0 l.
Proof.
  intros Hp Hl.
  transitivity (nth_error (firstn (List.length h0) h) l).
  - rewrite nth_error_firstn.
    destruct (Nat.ltb_spec l (List.length h0)); [reflexivity | lia].
  - now rewrite Hp.
Qed.

(** Copying one more object keeps the state of the copy. *)
Lemma copying_alloc h0 m h l t :
  copying h0 m h -> memo_get m l = None -> l < List.length h0 ->
  nth_error h l = Some t ->
  copying h0 ((l, List.length h) :: m) (h ++ [t]).
Proof.
  intros [Hle Hp Hm Hi] Hnone Hl Ht.
  assert (Ht0 : nth_error h0 l = Some t).
  { rewrite <- (nth_error_prefix h0 h l Hp Hl). exact Ht. }
  constructor.
  - rewrite length_app. simpl. lia.
  - rewrite firstn_app.
    replace (List.length h0 - List.length h) with 0 by lia.
    simpl. rewrite app_nil_r. exact Hp.
  - intros x x' Hx. simpl in Hx. rewrite length_app. simpl.
    destruct (Nat.eqb_spec l x) as [->|Hne].
    + injection Hx as <-. repeat split; try lia.
      rewrite nth_error_app2 by lia. rewrite Nat.sub_diag. simpl.
      now rewrite Ht0.
    + destruct (Hm x x' Hx) as [H1 [H2 H3]]. repeat split; try lia.
      rewrite nth_error_app1 by lia. exact H3.
  - intros x1 x2 x' H1 H2. simpl in H1, H2.
    destruct (Nat.eqb_spec l x1) as [E1|Hne1];
      destruct (Nat.eqb_spec l x2) as [E2|Hne2]; try congruence.
    + injection H1 as <-. apply Hm in H2. lia.
    + injection H2 as <-. apply Hm in H1. lia.
    + exact (Hi x1 x2 x' H1 H2).
Qed.

Lemma deepcopy_from_spec h0 (tweets : list loc) :
  Forall (fun l => l < List.length h0) tweets ->
  forall m h,
    copying h0 m h ->
    exists h' out m',
      deepcopy_from m h tweets = Some (h', out)
      /\ copying h0 m' h'
      /\ Forall2 (fun l l' => memo_get m' l = Some l') tweets out
      /\ (forall l l', memo_get m l = Some l' -> memo_get m' l = Some l').
Proof.
  induction 1 as [|l tweets Hl _ IH]; intros m h Hc; simpl.
  - exists h, [], m.
    split; [reflexivity|]. split; [exact Hc|]. split; [constructor | auto].
  - destruct (memo_get m l) as [l'|] eqn:Hget.
    + destruct (IH m h Hc) as [h' [out [m' [E [Hc' [Hall Hext]]]]]].
      rewrite E. exists h', (l' :: out), m'.
      split; [reflexivity|]. split; [exact Hc'|]. split; [|exact Hext].
      constructor; [apply Hext; exact Hget | exact Hall].
    + destruct (nth_error h l) as [t|] eqn:Ht.
      * pose proof (copying_alloc h0 m h l t Hc Hget Hl Ht) as Hc1.
        destruct (IH _ _ Hc1) as [h' [out [m' [E [Hc' [Hall Hext]]]]]].
        rewrite E. exists h', (List.length h :: out), m'.
        split; [reflexivity|]. split; [exact Hc'|]. split.
        -- constructor; [|exact Hall]. apply Hext. simpl.
           now rewrite Nat.eqb_refl.
        -- intros x x' Hx. apply Hext. simpl.
           destruct (Nat.eqb_spec l x) as [->|Hne]; [congruence | exact Hx].
      * apply nth_error_None in Ht. pose proof (copying_le _ _ _ Hc). lia.
Qed.

(** An object occurs in the batch as often as its copy in the copied
    batch. *)
Lemma count_occ_copies m (tweets out : list loc) l l' :
  (forall l1 l2 x, memo_get m l1 = Some x -> memo_get m l2 = Some x -> l1 = l2) ->
  Forall2 (fun a b => memo_get m a = Some b) tweets out ->
  memo_get m l = Some l' ->
  count_occ Nat.eq_dec out l' = count_occ Nat.eq_dec tweets l.
Proof.
  intros Hinj Hall Hl. induction Hall as [|a b tweets out Hab _ IH]; simpl.
  - reflexivity.
  - destruct (Nat.eq_dec a l) as [->|Ha]; destruct (Nat.eq_dec b l') as [->|Hb].
    + now rewrite IH.
    + congruence.
    + exfalso. apply Ha. exact (Hinj _ _ _ Hab Hl).
    + exact IH.
Qed.

Lemma NoDup_copies m (tweets out : list loc) :
  (forall l1 l2 x, memo_get m l1 = Some x -> memo_get m l2 = Some x -> l1 = l2) ->
  Forall2 (fun a b => memo_get m a = Some b) tweets out ->
  NoDup tweets -> NoDup out.
Proof.
  intros Hinj Hall. induction Hall as [|a b tweets out Hab Hall IH]; intros Hnd.
  - constructor.
  - inversion Hnd as [|? ? Ha Hnd']; subst. constructor; [|exact (IH Hnd')].
    intros Hb. apply Ha. clear IH Hnd Hnd' Ha.
    induction Hall as [|a' b' tweets out Hab' _ IH]; simpl in *; [contradiction|].
    destruct Hb as [->|Hb]; [left; exact (Hinj _ _ _ Hab' Hab) | right; exact (IH Hb)].
Qed.

(** What [preprocess_tweets] does, in one statement: the store only grows,
    the returned batch is the copied batch, and the text of a copy is the
    text of its original after as many runs of the pipeline as the batch
    lists the original. *)
Lemma preprocess_tweets_spec h (tweets : list loc) ps :
  well_formed h tweets ->
  exists h' r m,
    preprocess_tweets h tweets ps = Some (h', r)
    /\ List.length h <= List.length h'
    /\ firstn (List.length h) h' = h
    /\ (forall out, r = Ok out ->
          Forall2 (fun l l' => memo_get m l = Some l') tweets out
          /\ forall l l', memo_get m l = Some l' ->
               List.length h <= l' < List.length h'
               /\ exists t t',
                    nth_error h l = Some t /\ nth_error h' l' = Some t'
                    /\ meta t' = meta t
                    /\ run_times (count_occ Nat.eq_dec tweets l) ps (text t)
                       = Ok (text t'))
    /\ (NoDup tweets ->
        (forall l t, In l tweets -> nth_error h l = Some t ->
                     exists v, run_preprocessors ps (text t) = Ok v) ->
        exists out, r = Ok out).
Proof.
  intros Hwf. unfold preprocess_tweets, deepcopy.
  destruct (deepcopy_from_spec h tweets Hwf [] h (copying_start h))
    as [h1 [copies [m [E [[Hle Hp Hm Hi] [Hall _]]]]]].
  rewrite E.
  assert (Hcopies : Forall (fun l' => l' < List.length h1) copies).
  { clear -Hall Hm. induction Hall as [|a b ? ? Hab _ IH]; constructor; auto.
    apply Hm in Hab. lia. }
  destruct (tweets_loop_total M h1 copies ps Hcopies) as [h2 [r Hloop]].
  rewrite Hloop.
  destruct (tweets_loop_frame M _ _ _ _ _ Hloop) as [Hlen Hfr].
  assert (Hold : forall l, l < List.length h -> nth_error h2 l = nth_error h l).
  { intros l Hl. rewrite Hfr.
    - now apply nth_error_prefix.
    - intros Hin. clear -Hall Hm Hin Hl.
      induction Hall as [|a b ? ? Hab _ IH]; simpl in Hin; [contradiction|].
      destruct Hin as [->|Hin]; [apply Hm in Hab; lia | auto]. }
  assert (Hfirst : firstn (List.length h) h2 = h).
  { rewrite <- (firstn_all h) at 2.
    apply firstn_ext; [lia | lia | exact Hold]. }
  destruct r as [u|e].
  - exists h2, (Ok copies), m.
    split; [reflexivity|]. split; [lia|]. split; [exact Hfirst|]. split.
    + intros out Hout. injection Hout as <-. split; [exact Hall|].
      intros l l' Hget. destruct (Hm _ _ Hget) as [Hl [Hl' Hsame]].
      split; [lia|].
      destruct (nth_error_lt_some h l Hl) as [t Ht]. rewrite Ht in Hsame.
      destruct (tweets_loop_ok M _ _ _ _ _ _ _ Hloop Hsame)
        as [t' [H1 [H2 H3]]].
      exists t, t'. split; [exact Ht|]. split; [exact H1|].
      split; [exact H2|].
      rewrite <- (count_occ_copies m tweets copies l l' Hi Hall Hget).
      exact H3.
    + intros _ _. eauto.
  - exists h2, (Raise e), m.
    split; [reflexivity|]. split; [lia|]. split; [exact Hfirst|]. split.
    + intros out Hout. discriminate Hout.
    + intros Hnd Hruns. exfalso.
      destruct (tweets_loop_returns M h1 copies ps
                  (NoDup_copies m _ _ Hi Hall Hnd)) as [h3 Hret].
      * intros l' Hl'.
        assert (Hsrc : exists l, In l tweets /\ memo_get m l = Some l').
        { clear -Hall Hl'. induction Hall as [|a b ? ? Hab _ IH];
            simpl in Hl'; [contradiction|].
          destruct Hl' as [<-|Hl']; [exists a; simpl; auto|].
          destruct (IH Hl') as [x [? ?]]. exists x. simpl. auto. }
        destruct Hsrc as [l [Hin Hget]].
        destruct (Hm _ _ Hget) as [Hl [_ Hsame]].
        destruct (nth_error_lt_some h l Hl) as [t Ht]. rewrite Ht in Hsame.
        destruct (Hruns l t Hin Ht) as [v Hv]. exists t, v. auto.
      * congruence.
Qed.

End DeepCopy.

(** *** The record driver: the two laws *)

Lemma Forall2_nth_error {A B : Type} (R : A -> B -> Prop)
      (xs : list A) (ys : list B) (i : nat) (x : A) :
  Forall2 R xs ys -> nth_error xs i = Some x ->
  exists y, nth_error ys i = Some y /\ R x y.
Proof.
  intros H. revert i. induction H as [|a b xs ys Hab _ IH]; intros [|i] Hi;
    simpl in *; try discriminate.
  - injection Hi as <-. eauto.
  - exact (IH i Hi).
Qed.

Lemma Forall2_image {A B : Type} (R : A -> B -> Prop)
      (xs : list A) (ys : list B) (P : B -> Prop) :
  Forall2 R xs ys -> (forall x y, R x y -> P y) -> Forall P ys.
Proof.
  intros H HP. induction H as [|a b xs ys Hab _ IH]; constructor; eauto.
Qed.

Lemma well_formed_two_tweets : well_formed two_tweets [0; 1; 0].
Proof. repeat constructor. Qed.

(** C2.  [preprocess_tweets] works on a deep copy: whatever the pipeline,
    and whether the call returns or raises, every object that was in the
    store before the call is in it unchanged after the call, the records of
    the batch among them, each with the text it had; the records of the
    returned batch are new objects, none of them a record of the input. *)
Theorem preprocess_tweets_leaves_input_unchanged
        (M : Type) (h : heap M) (tweets : list loc) (preprocessors : list PreProcessor) :
  well_formed h tweets ->
  exists h' r,
    preprocess_tweets h tweets preprocessors = Some (h', r)
    /\ firstn (List.length h) h' = h
    /\ (forall l t, In l tweets -> nth_error h l = Some t ->
                    nth_error h' l = Some t /\
                    option_map text (nth_error h' l) = Some (text t))
    /\ (forall out, r = Ok out ->
          Forall (fun l' => List.length h <= l' < List.length h'
                            /\ ~ In l' tweets) out).
Proof.
  intros Hwf.
  destruct (preprocess_tweets_spec M h tweets preprocessors Hwf)
    as [h' [r [m [E [Hle [Hfirst [Hok _]]]]]]].
  exists h', r. split; [exact E|]. split; [exact Hfirst|]. split.
  - intros l t Hin Ht.
    assert (Hl : l < List.length h) by (apply nth_error_Some; congruence).
    assert (E' : nth_error h' l = Some t).
    { rewrite (nth_error_prefix M h h' l Hfirst Hl). exact Ht. }
    rewrite E'. auto.
  - intros out Hout. destruct (Hok out Hout) as [Hall Hm].
    apply (Forall2_image _ _ _ _ Hall). intros l l' Hget.
    destruct (Hm l l' Hget) as [Hrange _]. split; [exact Hrange|].
    intros Hin. unfold well_formed in Hwf.
    rewrite Forall_forall in Hwf. specialize (Hwf l' Hin). lia.
Qed.

(** C2 on a batch that lists the first of two tweets twice. *)
Lemma preprocess_tweets_leaves_input_unchanged_witness :
  well_formed two_tweets [0; 1; 0]
  /\ exists h' r,
       preprocess_tweets two_tweets [0; 1; 0] scenario_pipeline = Some (h', r)
       /\ firstn 2 h' = two_tweets
       /\ (forall l t, In l [0; 1; 0] -> nth_error two_tweets l = Some t ->
                       nth_error h' l = Some t /\
                       option_map text (nth_error h' l) = Some (text t))
       /\ (forall out, r = Ok out ->
             Forall (fun l' => 2 <= l' < List.length h' /\ ~ In l' [0; 1; 0]) out).
Proof.
  split; [exact well_formed_two_tweets|].
  exact (preprocess_tweets_leaves_input_unchanged
           string two_tweets [0; 1; 0] scenario_pipeline well_formed_two_tweets).
Defined.

(** C3.  When [preprocess_tweets] returns, the returned batch has the length
    of the input batch and its i-th record is the copy of the i-th input
    record: same other attributes, and as text what the pipeline made of the
    text of the original, empty or not (the pipeline ran once for every time
    the batch lists the record, so once when the records of the batch are
    distinct).  With distinct records it returns as soon as the pipeline
    returns on every text.  A blank tweet is returned with an empty text. *)
Theorem preprocess_tweets_one_to_one :
  (forall (M : Type) (h : heap M) (tweets : list loc)
          (preprocessors : list PreProcessor),
      well_formed h tweets ->
      exists h' r,
        preprocess_tweets h tweets preprocessors = Some (h', r)
        /\ (forall out, r = Ok out ->
              List.length out = List.length tweets
              /\ forall i l, nth_error tweets i = Some l ->
                   exists l' t t',
                     nth_error out i = Some l'
                     /\ nth_error h l = Some t
                     /\ nth_error h' l' = Some t'
                     /\ meta t' = meta t
                     /\ run_times (count_occ Nat.eq_dec tweets l)
                                  preprocessors (text t) = Ok (text t')
                     /\ (NoDup tweets ->
                         run_preprocessors preprocessors (text t) = Ok (text t')))
        /\ (NoDup tweets ->
            (forall l t, In l tweets -> nth_error h l = Some t ->
                         exists v, run_preprocessors preprocessors (text t) = Ok v) ->
            exists out, r = Ok out))
  /\ preprocess_tweets two_tweets [0; 1] filter_law_pipeline
     = Some (two_tweets ++ [mkTweet (VStr "Hello World") "alice";
                            mkTweet (VStr "") "bob"],
             Ok [2; 3]).
Proof.
  split; [|reflexivity].
  intros M h tweets ps Hwf.
  destruct (preprocess_tweets_spec M h tweets ps Hwf)
    as [h' [r [m [E [Hle [Hfirst [Hok Hret]]]]]]].
  exists h', r. split; [exact E|]. split; [|exact Hret].
  intros out Hout. destruct (Hok out Hout) as [Hall Hm].
  split; [symmetry; exact (Forall2_length Hall)|].
  intros i l Hi.
  destruct (Forall2_nth_error _ _ _ _ _ Hall Hi) as [l' [Hi' Hget]].
  destruct (Hm l l' Hget) as [_ [t [t' [Ht [Ht' [Hmeta Hrun]]]]]].
  exists l', t, t'. repeat split; try assumption.
  intros Hnd.
  assert (Hone : count_occ Nat.eq_dec tweets l = 1).
  { apply (proj1 (NoDup_count_occ' Nat.eq_dec tweets) Hnd).
    apply (nth_error_In _ _ Hi). }
  rewrite Hone in Hrun. simpl in Hrun.
  destruct (run_preprocessors ps (text t)) as [v|e]; simpl in Hrun;
    [exact Hrun | discriminate].
Qed.

(** C3 on a batch that lists the first of two tweets twice. *)
Lemma preprocess_tweets_one_to_one_witness :
  well_formed two_tweets [0; 1; 0]
  /\ exists h' r,
       preprocess_tweets two_tweets [0; 1; 0] [WordToLowercase] = Some (h', r)
       /\ (forall out, r = Ok out -> List.length out = 3).
Proof.
  split; [exact well_formed_two_tweets|].
  destruct (proj1 preprocess_tweets_one_to_one string two_tweets [0; 1; 0]
                  [WordToLowercase] well_formed_two_tweets)
    as [h' [r [E [Hok _]]]].
  exists h', r. split; [exact E|].
  intros out Hout. exact (proj1 (Hok out Hout)).
Defined.

(* ------------------------------------------------------------------ *)
(** ** Further properties of the pre-processors *)

(** *** Trimming *)

Lemma lstrip_head (s : string) : at_space (lstrip s) = true -> lstrip s = "".
Proof.
  induction s as [|c s IH]; simpl; [reflexivity|].
  destruct (isspace c) eqn:E; [exact IH|]. simpl. congruence.
Qed.

Lemma lstrip_fixed (s : string) : (s = "" \/ at_space s = false) -> lstrip s = s.
Proof.
  destruct s as [|c s]; simpl; [reflexivity|].
  intros [H|H]; [discriminate | now rewrite H].
Qed.

Lemma rstrip_keeps_head (s : string) :
  at_space s = false -> at_space (rstrip s) = false.
Proof.
  destruct s as [|c s]; simpl; [discriminate|]. intros H.
  destruct (rstrip s); simpl; [rewrite H; simpl|]; exact H.
Qed.

Lemma rstrip_idem (s : string) : rstrip (rstrip s) = rstrip s.
Proof.
  induction s as [|c s IH]; simpl; [reflexivity|].
  destruct (rstrip s) as [|d r] eqn:E.
  - destruct (isspace c) eqn:Hc; simpl; [reflexivity | now rewrite Hc].
  - change (rstrip (String c (String d r))) with
      (match rstrip (String d r) with
       | EmptyString => if isspace c then EmptyString else String c EmptyString
       | r' => String c r'
       end).
    rewrite IH. reflexivity.
Qed.

Lemma strip_idem (s : string) : strip (strip s) = strip s.
Proof.
  unfold strip.
  assert (H : lstrip (rstrip (lstrip s)) = rstrip (lstrip s)).
  { apply lstrip_fixed. destruct (at_space (lstrip s)) eqn:E.
    - left. now rewrite (lstrip_head s E).
    - right. now apply rstrip_keeps_head. }
  rewrite H. apply rstrip_idem.
Qed.

Lemma filter_all_true {A : Type} (f : A -> bool) (l : list A) :
  Forall (fun x => f x = true) l -> filter f l = l.
Proof.
  induction 1 as [|x l Hx _ IH]; simpl; [reflexivity|]. now rewrite Hx, IH.
Qed.

Lemma len_nonneg (s : string) : (0 <= len s)%Z.
Proof. unfold len. lia. Qed.

(** X1.  Length law of [WordLengthFilter]: every word it returns is trimmed
    and has at least [min_word_length] characters, each is the trimmed form
    of a word of the input, and it returns no more words than it got. *)
Theorem WordLengthFilter_length_law (min_word_length : Z) (words : list string) :
  exists out,
    preprocess_text (WordLengthFilter min_word_length) (VList words)
    = Ok (VList out)
    /\ Forall (fun kept => (min_word_length <= len kept)%Z
                           /\ strip kept = kept
                           /\ exists word, In word words /\ kept = strip word) out
    /\ List.length out <= List.length words.
Proof.
  eexists. split; [reflexivity|]. split.
  - apply Forall_forall. intros kept Hk.
    apply in_map_iff in Hk. destruct Hk as [w [<- Hw]].
    apply filter_In in Hw. destruct Hw as [Hin Hlen].
    apply Z.leb_le in Hlen. split; [exact Hlen|].
    split; [apply strip_idem | eauto].
  - rewrite length_map. apply filter_length_le.
Qed.

(** X2.  A [min_word_length] of zero or less filters nothing: every word is
    returned, trimmed. *)
Theorem WordLengthFilter_nonpositive_keeps_all
        (min_word_length : Z) (words : list string) :
  (min_word_length <= 0)%Z ->
  preprocess_text (WordLengthFilter min_word_length) (VList words)
  = Ok (VList (map strip words)).
Proof.
  intros Hn. simpl. unfold WordLengthFilter_preprocess_text. simpl.
  rewrite filter_all_true; [reflexivity|].
  apply Forall_forall. intros w _. apply Z.leb_le.
  pose proof (len_nonneg (strip w)). lia.
Qed.

(** X2 with a negative length and a blank word. *)
Lemma WordLengthFilter_nonpositive_keeps_all_witness :
  (-1 <= 0)%Z
  /\ preprocess_text (WordLengthFilter (-1)) (VList [" a "; "  "; "bc"])
     = Ok (VList ["a"; ""; "bc"]).
Proof.
  split; [lia|].
  apply (WordLengthFilter_nonpositive_keeps_all (-1) [" a "; "  "; "bc"]). lia.
Defined.

(** X3.  [WordLengthFilter] is idempotent on lists of words. *)
Theorem WordLengthFilter_idempotent (min_word_length : Z) (words : list string) :
  bind (preprocess_text (WordLengthFilter min_word_length) (VList words))
       (preprocess_text (WordLengthFilter min_word_length))
  = preprocess_text (WordLengthFilter min_word_length) (VList words).
Proof.
  simpl. unfold WordLengthFilter_preprocess_text. simpl. do 2 f_equal.
  set (f := fun word => (min_word_length <=? len (strip word))%Z).
  rewrite (filter_all_true f).
  - apply map_idem. exact strip_idem.
  - apply Forall_forall. intros x Hx.
    apply in_map_iff in Hx. destruct Hx as [w [<- Hw]].
    apply filter_In in Hw. destruct Hw as [_ Hw].
    unfold f in *. now rewrite strip_idem.
Qed.

(** *** Words of a split *)

Lemma all_chars_app (p : ascii -> bool) (a b : string) :
  all_chars p (a ++ b) = all_chars p a && all_chars p b.
Proof.
  induction a as [|c a IH]; simpl; [reflexivity|].
  now rewrite IH, andb_assoc.
Qed.

(** The words of a split are not empty and have no whitespace; they keep
    whatever else holds of the characters that are not whitespace. *)
Lemma split_from_words (q : ascii -> bool) (s cur : string) :
  all_chars (fun c => Re.not_space c && q c) cur = true ->
  all_chars (fun c => isspace c || q c) s = true ->
  Forall (fun w => truthy w = true
                   /\ all_chars (fun c => Re.not_space c && q c) w = true)
         (split_from cur s).
Proof.
  revert cur. induction s as [|c s IH]; intros cur Hcur Hs; simpl.
  - destruct (truthy cur) eqn:E; constructor; auto.
  - simpl in Hs. apply andb_true_iff in Hs. destruct Hs as [Hc Hs].
    destruct (isspace c) eqn:Ec.
    + destruct (truthy cur) eqn:E; [constructor; auto|]; apply IH; auto.
    + apply IH; [|exact Hs]. rewrite all_chars_app, Hcur. simpl.
      unfold Re.not_space. rewrite Ec. simpl in *. now rewrite Hc.
Qed.

Lemma all_chars_weaken (p q : ascii -> bool) (s : string) :
  (forall c, p c = true -> q c = true) ->
  all_chars p s = true -> all_chars q s = true.
Proof.
  intros H. induction s as [|c s IH]; simpl; [reflexivity|].
  intros Hs. apply andb_true_iff in Hs. destruct Hs as [Hc Hs].
  now rewrite (H c Hc), (IH Hs).
Qed.

Lemma rstrip_word (w : string) : all_chars Re.not_space w = true -> rstrip w = w.
Proof.
  induction w as [|c w IH]; simpl; [reflexivity|]. intros H.
  apply andb_true_iff in H. destruct H as [Hc Hw]. rewrite (IH Hw).
  unfold Re.not_space in Hc. apply negb_true_iff in Hc.
  destruct w; [now rewrite Hc | reflexivity].
Qed.

Lemma strip_word (w : string) : all_chars Re.not_space w = true -> strip w = w.
Proof.
  intros H. unfold strip. rewrite lstrip_fixed; [now apply rstrip_word|].
  destruct w as [|c w]; [now left | right]. simpl in *.
  apply andb_true_iff in H. destruct H as [Hc _].
  unfold Re.not_space in Hc. now apply negb_true_iff in Hc.
Qed.

Lemma split_words (s : string) :
  Forall (fun w => truthy w = true /\ all_chars Re.not_space w = true) (split s).
Proof.
  pose proof (split_from_words (fun _ => true) s "" eq_refl) as H.
  assert (Hs : all_chars (fun c => isspace c || true) s = true).
  { clear. induction s as [|c s IH]; simpl; [reflexivity|].
    now rewrite orb_true_r, IH. }
  specialize (H Hs). eapply Forall_impl; [|exact H].
  intros w [H1 H2]. split; [exact H1|].
  revert H2. apply all_chars_weaken.
  intros c Hc. simpl in Hc. now rewrite andb_true_r in Hc.
Qed.

(** X4.  [SplitWordByWhitespace] returns, on any text, words that are not
    empty and contain no whitespace, so that [RemoveEmptyStrings] right
    after it removes nothing. *)
Theorem split_yields_proper_words (s : string) :
  exists words,
    preprocess_text SplitWordByWhitespace (VStr s) = Ok (VList words)
    /\ Forall (fun w => truthy w = true /\ all_chars Re.not_space w = true) words
    /\ run_preprocessors [SplitWordByWhitespace; RemoveEmptyStrings] (VStr s)
       = Ok (VList words).
Proof.
  exists (split s). split; [reflexivity|]. split; [apply split_words|].
  simpl. unfold RemoveEmptyStrings_preprocess_text. simpl. do 2 f_equal.
  apply filter_all_true. eapply Forall_impl; [|apply split_words].
  intros w [H1 H2]. simpl. now rewrite (strip_word w H2).
Qed.

Lemma split_from_append (w rest cur : string) :
  all_chars Re.not_space w = true ->
  split_from cur (w ++ rest) = split_from (cur ++ w) rest.
Proof.
  revert cur. induction w as [|c w IH]; intros cur H; simpl.
  - now rewrite append_nil_r.
  - simpl in H. apply andb_true_iff in H. destruct H as [Hc Hw].
    unfold Re.not_space in Hc. apply negb_true_iff in Hc. rewrite Hc.
    rewrite (IH _ Hw), append_assoc. reflexivity.
Qed.

(** Joining proper words with single spaces and splitting gives the words
    back. *)
Lemma split_join (words : list string) :
  Forall (fun w => truthy w = true /\ all_chars Re.not_space w = true) words ->
  split (join " " words) = words.
Proof.
  unfold split. induction 1 as [|w ws [Hw1 Hw2] Hws IH]; [reflexivity|].
  destruct ws as [|w2 ws].
  - simpl. rewrite <- (append_nil_r w) at 1.
    rewrite (split_from_append w "" "" Hw2). simpl. now rewrite Hw1.
  - rewrite join_cons, (split_from_append w _ "" Hw2). simpl.
    rewrite Hw1. f_equal. exact IH.
Qed.

(** X5.  [SplitWordByWhitespace] then [ConcatWordArray] normalises the
    whitespace of any text: the words of the result are the words of the
    text, and a second pass changes nothing. *)
Theorem split_concat_normalises (s : string) :
  exists normal,
    run_preprocessors [SplitWordByWhitespace; ConcatWordArray] (VStr s)
    = Ok (VStr normal)
    /\ preprocess_text SplitWordByWhitespace (VStr normal)
       = preprocess_text SplitWordByWhitespace (VStr s)
    /\ run_preprocessors [SplitWordByWhitespace; ConcatWordArray] (VStr normal)
       = Ok (VStr normal)
    /\ strip normal = normal.
Proof.
  exists (join " " (split s)). split; [reflexivity|].
  assert (E : split (join " " (split s)) = split s)
    by (apply split_join, split_words).
  split; [simpl; now rewrite E|]. split.
  - simpl. unfold ConcatWordArray_preprocess_text. simpl. now rewrite E.
  - pose proof (split_words s) as H. destruct (split s) as [|w ws] eqn:Es.
    + reflexivity.
    + clear E Es. revert w H. induction ws as [|w2 ws IH]; intros w H.
      * inversion H as [|? ? [_ Hw] _]; subst. simpl. now apply strip_word.
      * inversion H as [|? ? [Hw1 Hw2] Hrest]; subst.
        specialize (IH w2 Hrest). rewrite join_cons.
        unfold strip in *.
        destruct w as [|c w]; [discriminate|].
        simpl in Hw2. apply andb_true_iff in Hw2. destruct Hw2 as [Hc _].
        unfold Re.not_space in Hc. apply negb_true_iff in Hc.
        cbn [append lstrip]. rewrite Hc.
        assert (Hl : lstrip (join " " (w2 :: ws)) = join " " (w2 :: ws)).
        { inversion Hrest as [|? ? [Hw21 Hw22] _]; subst.
          apply lstrip_fixed. right.
          destruct w2 as [|d w2]; [discriminate|].
          simpl in Hw22. apply andb_true_iff in Hw22. destruct Hw22 as [Hd _].
          unfold Re.not_space in Hd. apply negb_true_iff in Hd.
          destruct ws; simpl; exact Hd. }
        rewrite Hl in IH.
        assert (Hr : forall a b, rstrip b = b -> b <> "" ->
                                 rstrip (a ++ b) = (a ++ b)%string).
        { clear. intros a b Hb Hne. induction a as [|x a IHa]; [exact Hb|].
          cbn [append rstrip]. rewrite IHa.
          destruct (a ++ b)%string eqn:E; [|reflexivity].
          destruct a; simpl in E; [congruence | discriminate]. }
        refine (Hr (String c w) (String " " (join " " (w2 :: ws))) _ _);
          [|discriminate].
        cbn [rstrip]. rewrite IH.
        inversion Hrest as [|? ? [Hw21 _] _]; subst.
        destruct (join " " (w2 :: ws)) eqn:Ej; [|reflexivity].
        exfalso. destruct w2; [discriminate|]. destruct ws; discriminate.
Qed.

(** *** Punctuation, digits and other characters *)

Lemma table_get_maketrans (keep : ascii -> bool) (v keys : string) (c : ascii) :
  table_get (maketrans keep v keys) c
  = if keep c && existsb (Ascii.eqb c) (list_ascii_of_string keys)
    then Some v else None.
Proof.
  induction keys as [|k keys IH]; simpl.
  - now rewrite andb_false_r.
  - destruct (keep k) eqn:Ek; simpl.
    + destruct (Ascii.eqb_spec k c) as [<-|Hne].
      * rewrite Ek, Ascii.eqb_refl. reflexivity.
      * rewrite IH. replace (Ascii.eqb c k) with false; [reflexivity|].
        symmetry. apply Ascii.eqb_neq. congruence.
    + rewrite IH. destruct (Ascii.eqb_spec c k) as [->|Hne]; simpl.
      * rewrite Ek. reflexivity.
      * reflexivity.
Qed.

Lemma translate_chars (q : ascii -> bool) (t : table) (s : string) :
  (forall c, match table_get t c with
             | Some r => all_chars q r = true
             | None => q c = true
             end) ->
  all_chars q (translate t s) = true.
Proof.
  intros H. induction s as [|c s IH]; simpl; [reflexivity|].
  specialize (H c). destruct (table_get t c) as [r|].
  - now rewrite all_chars_app, H, IH.
  - simpl. now rewrite H, IH.
Qed.

(** X6.  Every word that [RemovePunctuationFromWords] returns is not empty
    and has neither whitespace nor punctuation in it, except that, without
    [remove_all], the characters [#], [@], [<] and [>] may stay. *)
Theorem RemovePunctuationFromWords_output_words
        (remove_all : bool) (words : list string) :
  exists out,
    preprocess_text (RemovePunctuationFromWords__init__ remove_all) (VList words)
    = Ok (VList out)
    /\ Forall (fun w =>
                 truthy w = true
                 /\ all_chars (fun c => Re.not_space c
                                        && (negb (is_punctuation c)
                                            || (negb remove_all && special_token c)))
                              w = true) out.
Proof.
  set (q := fun c => negb (is_punctuation c)
                     || (negb remove_all && special_token c)).
  assert (H : forall keep,
             (forall c, keep c && is_punctuation c = false -> q c = true) ->
             Forall (fun w => truthy w = true
                              /\ all_chars (fun c => Re.not_space c && q c) w = true)
                    (flat_map split
                       (map (translate (maketrans keep " " punctuation)) words))).
  { intros keep Hkeep. apply Forall_forall. intros w Hw.
    apply in_flat_map in Hw. destruct Hw as [x [Hx Hw]].
    apply in_map_iff in Hx. destruct Hx as [word [<- _]].
    revert w Hw. apply Forall_forall.
    apply (split_from_words q _ "" eq_refl).
    apply translate_chars. intros c. rewrite table_get_maketrans.
    fold (is_punctuation c).
    destruct (keep c && is_punctuation c) eqn:E; [reflexivity|].
    rewrite (Hkeep c E). apply orb_true_r. }
  destruct remove_all.
  - exists (flat_map split
              (map (translate (maketrans (fun _ => true) " " punctuation)) words)).
    split; [reflexivity|]. apply H. intros c Hc. unfold q.
    cbn [andb] in Hc. rewrite Hc. reflexivity.
  - exists (flat_map split
              (map (translate (maketrans (fun key => negb (special_token key))
                                         " " punctuation)) words)).
    split; [reflexivity|]. apply H. intros c Hc. unfold q.
    apply andb_false_iff in Hc. destruct Hc as [Hc|Hc].
    + apply negb_false_iff in Hc. rewrite Hc. apply orb_true_r.
    + rewrite Hc. reflexivity.
Qed.

Lemma all_chars_filter_chars (p : ascii -> bool) (s : string) :
  all_chars p (filter_chars p s) = true.
Proof.
  induction s as [|c s IH]; simpl; [reflexivity|].
  destruct (p c) eqn:E; simpl; [now rewrite E|exact IH].
Qed.

Lemma filter_chars_ext (p q : ascii -> bool) (s : string) :
  (forall c, p c = q c) -> filter_chars p s = filter_chars q s.
Proof.
  intros H. induction s as [|c s IH]; simpl; [reflexivity|].
  now rewrite H, IH.
Qed.

(** X7.  [RemoveDigits] deletes the characters [0]..[9] from every word
    and nothing else; a word made of digits only comes out empty and is
    kept, so the number of words does not change. *)
Theorem RemoveDigits_deletes_exactly_the_digits (words : list string) :
  preprocess_text RemoveDigits__init__ (VList words)
  = Ok (VList (map (filter_chars (fun c => negb (is_digit c))) words))
  /\ (forall word, all_chars is_digit word = true ->
        preprocess_text RemoveDigits__init__ (VList [word]) = Ok (VList [""])).
Proof.
  split.
  - simpl. unfold RemoveDigits_preprocess_text. simpl. do 2 f_equal.
    apply map_ext. exact RemoveDigits_deletes_digits.
  - intros word Hd. simpl. unfold RemoveDigits_preprocess_text. simpl.
    rewrite RemoveDigits_deletes_digits. do 3 f_equal.
    induction word as [|c w IH]; simpl in *; [reflexivity|].
    apply andb_true_iff in Hd. destruct Hd as [Hc Hw].
    rewrite Hc. simpl. exact (IH Hw).
Qed.

(** X7 on a word of digits. *)
Lemma RemoveDigits_deletes_exactly_the_digits_witness :
  all_chars is_digit "2024" = true
  /\ preprocess_text RemoveDigits__init__ (VList ["2024"]) = Ok (VList [""]).
Proof.
  split; [reflexivity|].
  apply (proj2 (RemoveDigits_deletes_exactly_the_digits [])). reflexivity.
Defined.

(** X8.  [RemoveNonAlphabet] keeps, of every word, the letters [a]..[z] and
    [A]..[Z] in their order and deletes every other character; the number
    of words does not change. *)
Theorem RemoveNonAlphabet_keeps_exactly_the_letters (words : list string) :
  preprocess_text RemoveNonAlphabet (VList words)
  = Ok (VList (map (filter_chars is_alpha_az) words))
  /\ Forall (fun w => all_chars is_alpha_az w = true)
            (map (filter_chars is_alpha_az) words).
Proof.
  split.
  - simpl. unfold RemoveNonAlphabet_preprocess_text. simpl. do 2 f_equal.
    apply map_ext. intros s. rewrite RemoveNonAlphabet_keeps_letters.
    apply filter_chars_ext. intros c. apply negb_involutive.
  - apply Forall_forall. intros w Hw.
    apply in_map_iff in Hw. destruct Hw as [x [<- _]].
    apply all_chars_filter_chars.
Qed.

(** *** Masking URLs *)



Lemma sub_from_skipn (m : Re.matcher) (repl : string -> string)
      (k : nat) (s : string) :
  k <= String.length s ->
  Re.sub_from m repl k s = Re.sub_from m repl 0 (Re.skipn k s).
Proof.
  revert s. induction k as [|k IH]; intros s Hk.
  - destruct s; reflexivity.
  - destruct s as [|c s]; simpl in Hk; [lia|]. simpl. apply IH. lia.
Qed.









(** *** Retweet markers *)

Lemma match_rt_marker (w : string) : Re.match_rt w = true <-> retweet_marker w.
Proof.
  unfold retweet_marker, Re.match_rt, Re.word2_at_start. split.
  - intros H. destruct w as [|c1 [|c2 rest]]; try discriminate.
    exists rest. apply orb_true_iff in H. destruct H as [H|H];
      repeat (apply andb_true_iff in H; destruct H as [H ?]);
      repeat match goal with
             | E : Ascii.eqb _ _ = true |- _ => apply Ascii.eqb_eq in E; subst
             end;
      (split; [auto|]);
      match goal with
      | B : Re.boundary _ _ = true |- _ =>
          unfold Re.boundary in B; simpl in B;
          destruct (Re.is_word_opt (Re.head rest)); [discriminate B | reflexivity]
      end.
  - intros [rest [[->| ->] Hrest]]; simpl; unfold Re.boundary; rewrite Hrest;
      reflexivity.
Qed.

(** X10.  [RemoveRT] drops the words that start with [rt] or [RT] followed
    by no character of a word, and only those, keeping the other words in
    their order.  So [rt] and [RT] go, and so does a word such as [RT:] or
    [rt-hello] as a whole, while [rta], [rt_] and [Rt] stay. *)
Theorem RemoveRT_drops_markers (words : list string) :
  exists out,
    preprocess_text RemoveRT__init__ (VList words) = Ok (VList out)
    /\ (forall w, In w out <-> In w words /\ ~ retweet_marker w)
    /\ (forall w, ~ retweet_marker w ->
                  count_occ string_dec out w = count_occ string_dec words w)
    /\ retweet_marker "rt" /\ retweet_marker "RT:" /\ retweet_marker "rt-hello"
    /\ ~ retweet_marker "rta" /\ ~ retweet_marker "rt_" /\ ~ retweet_marker "Rt".
Proof.
  exists (filter (fun word => negb (Re.match_rt word)) words).
  split; [reflexivity|]. split; [|split].
  - intros w. rewrite filter_In, negb_true_iff, <- match_rt_marker.
    destruct (Re.match_rt w); intuition congruence.
  - intros w Hw. induction words as [|x xs IH]; simpl; [reflexivity|].
    destruct (Re.match_rt x) eqn:Ex; simpl.
    + destruct (string_dec x w) as [->|_]; [|exact IH].
      exfalso. apply Hw. now apply match_rt_marker.
    + destruct (string_dec x w); now rewrite IH.
  - repeat split;
      try (apply match_rt_marker; reflexivity);
      rewrite <- match_rt_marker; discriminate.
Qed.

(** X10 on a batch with a marker and a word listed twice. *)
Lemma RemoveRT_drops_markers_witness :
  exists out,
    preprocess_text RemoveRT__init__ (VList ["RT"; "hi"; "hi"]) = Ok (VList out)
    /\ count_occ string_dec out "hi" = 2.
Proof.
  destruct (RemoveRT_drops_markers ["RT"; "hi"; "hi"]) as [out [E [_ [Hc _]]]].
  exists out. split; [exact E|]. rewrite Hc; [reflexivity|].
  rewrite <- match_rt_marker. discriminate.
Defined.

(** *** Repeated letters *)

Lemma run_two (p : ascii -> bool) (r : string) :
  (2 <=? Re.run p r)%nat
  = match r with
    | String b (String c _) => p b && p c
    | _ => false
    end.
Proof.
  destruct r as [|b [|c r]]; simpl; try reflexivity.
  - destruct (p b); reflexivity.
  - destruct (p b); [|reflexivity]. destruct (p c); reflexivity.
Qed.

(** The pattern matches at the start of [String a r] exactly when [a] is a
    letter [a]..[z] and [r] starts with two more of it. *)
Lemma letter_repetition_none (a : ascii) (r : string) :
  Re.letter_repetition (String a r) = None
  <-> is_lower_az a
      && match r with
         | String b (String c _) => Ascii.eqb a b && Ascii.eqb a c
         | _ => false
         end = false.
Proof.
  unfold Re.letter_repetition. rewrite <- (run_two (Ascii.eqb a) r).
  destruct (is_lower_az a); cbn [andb]; cbv iota zeta; [|tauto].
  destruct (2 <=? Re.run (Ascii.eqb a) r)%nat; split; intros H;
    (reflexivity || discriminate H).
Qed.

Lemma letter_repetition_some (s : string) (n : nat) :
  Re.letter_repetition s = Some n ->
  exists a r k, s = String a r /\ n = S k /\ k = Re.run (Ascii.eqb a) r.
Proof.
  destruct s as [|a r]; [discriminate|]. unfold Re.letter_repetition.
  destruct (is_lower_az a); cbv iota zeta; [|discriminate].
  destruct (2 <=? Re.run (Ascii.eqb a) r)%nat; [|discriminate].
  intros H. injection H as <-.
  exists a, r, (Re.run (Ascii.eqb a) r). auto.
Qed.

Lemma squeeze_no_match_here (a : ascii) (r : string) :
  Re.letter_repetition (String a r) = None ->
  squeeze (String a r) = String a (squeeze r).
Proof.
  intros H. unfold squeeze, Re.sub. cbn [Re.sub_from]. now rewrite H.
Qed.

Lemma squeeze_triple_free (w : string) : triple_free w = true -> squeeze w = w.
Proof.
  induction w as [|a r IH]; [reflexivity|]. cbn [triple_free]. intros H.
  apply andb_true_iff in H. destruct H as [H1 H2].
  apply negb_true_iff in H1. apply letter_repetition_none in H1.
  now rewrite (squeeze_no_match_here a r H1), (IH H2).
Qed.

Lemma run_le_length (p : ascii -> bool) (s : string) :
  Re.run p s <= String.length s.
Proof.
  induction s as [|c s IH]; simpl; [lia|]. destruct (p c); simpl; lia.
Qed.

Lemma head_after_run (p : ascii -> bool) (s : string) (d : ascii) :
  Re.head (Re.skipn (Re.run p s) s) = Some d -> p d = false.
Proof.
  induction s as [|c s IH]; simpl; [discriminate|].
  destruct (p c) eqn:E; simpl; [exact IH|].
  intros H. injection H as <-. exact E.
Qed.

Lemma head_squeeze (s : string) : Re.head (squeeze s) = Re.head s.
Proof.
  destruct s as [|a r]; [reflexivity|]. unfold squeeze, Re.sub.
  cbn [Re.sub_from].
  destruct (Re.letter_repetition (String a r)) as [n|] eqn:E; [|reflexivity].
  destruct (letter_repetition_some _ _ E) as [a' [r' [k [Es [-> _]]]]].
  injection Es as <- <-. reflexivity.
Qed.

Lemma run_zero (p : ascii -> bool) (s : string) :
  (forall d, Re.head s = Some d -> p d = false) -> Re.run p s = 0.
Proof.
  destruct s as [|c s]; simpl; [reflexivity|]. intros H.
  now rewrite (H c eq_refl).
Qed.

(** Where the pattern did not match before, it does not match after the
    rest has been squeezed. *)
Lemma no_match_before_squeezed (a : ascii) (r : string) :
  Re.letter_repetition (String a r) = None ->
  Re.letter_repetition (String a (squeeze r)) = None.
Proof.
  unfold Re.letter_repetition. destruct (is_lower_az a); [|reflexivity].
  destruct (2 <=? Re.run (Ascii.eqb a) r)%nat eqn:E; [discriminate|].
  intros _. rewrite run_two in E.
  assert (H : Re.run (Ascii.eqb a) (squeeze r) < 2);
    [|apply Nat.leb_gt in H; now rewrite H].
  destruct r as [|b r]; [simpl; lia|].
  destruct (Ascii.eqb a b) eqn:Eb.
  - assert (Hr : Re.run (Ascii.eqb a) r = 0).
    { destruct r as [|c r]; [reflexivity|]. simpl in *. now rewrite E. }
    assert (Hno : Re.letter_repetition (String b r) = None).
    { apply Ascii.eqb_eq in Eb. subst b. unfold Re.letter_repetition.
      rewrite Hr. destruct (is_lower_az a); reflexivity. }
    rewrite (squeeze_no_match_here b r Hno). simpl. rewrite Eb.
    rewrite (run_zero (Ascii.eqb a) (squeeze r)); [lia|].
    intros d Hd. rewrite head_squeeze in Hd.
    destruct r as [|c r]; simpl in *; [discriminate|].
    injection Hd as <-. destruct (Ascii.eqb a c); [discriminate | reflexivity].
  - rewrite (run_zero (Ascii.eqb a) (squeeze (String b r))); [lia|].
    intros d Hd. rewrite head_squeeze in Hd. simpl in Hd.
    injection Hd as <-. exact Eb.
Qed.

Lemma triple_free_cons (a : ascii) (r : string) :
  Re.letter_repetition (String a r) = None -> triple_free r = true ->
  triple_free (String a r) = true.
Proof.
  intros H Hr. cbn [triple_free]. rewrite Hr.
  apply letter_repetition_none in H. now rewrite H.
Qed.

Lemma sub_from_triple_free (s : string) (k : nat) :
  k <= String.length s ->
  triple_free (Re.sub_from Re.letter_repetition Re.group1 k s) = true.
Proof.
  revert k. induction s as [|a r IH]; intros k Hk.
  - simpl in Hk. assert (k = 0) by lia. subst k. reflexivity.
  - destruct k as [|k]; [|simpl in Hk; simpl; apply IH; lia].
    cbn [Re.sub_from].
    destruct (Re.letter_repetition (String a r)) as [n|] eqn:E.
    + destruct (letter_repetition_some _ _ E) as [a' [r' [j [Es [-> Hj]]]]].
      injection Es as <- <-.
      change (Re.group1 (String.substring 0 (S j) (String a r)))
        with (String a "").
      cbn [append].
      assert (Hle : j <= String.length r)
        by (subst j; apply run_le_length).
      apply triple_free_cons; [|apply IH; exact Hle].
      unfold Re.letter_repetition.
      rewrite (run_zero (Ascii.eqb a)); [destruct (is_lower_az a); reflexivity|].
      intros d Hd. rewrite (sub_from_skipn _ _ j r Hle) in Hd.
      fold (Re.sub Re.letter_repetition Re.group1 (Re.skipn j r)) in Hd.
      fold (squeeze (Re.skipn j r)) in Hd. rewrite head_squeeze in Hd.
      subst j. exact (head_after_run _ _ _ Hd).
    + apply triple_free_cons; [|apply IH; lia].
      exact (no_match_before_squeezed a r E).
Qed.

Lemma squeeze_is_triple_free (w : string) : triple_free (squeeze w) = true.
Proof. apply sub_from_triple_free. lia. Qed.

(** X11.  [RemoveLetterRepetitions] leaves no letter [a]..[z] followed by
    two more of the same in any word, changes nothing in a list of words
    that has none, and is therefore idempotent. *)
Theorem RemoveLetterRepetitions_squeezes (words : list string) :
  preprocess_text RemoveLetterRepetitions (VList words)
  = Ok (VList (map squeeze words))
  /\ Forall (fun w => triple_free w = true) (map squeeze words)
  /\ (Forall (fun w => triple_free w = true) words -> map squeeze words = words)
  /\ bind (preprocess_text RemoveLetterRepetitions (VList words))
          (preprocess_text RemoveLetterRepetitions)
     = preprocess_text RemoveLetterRepetitions (VList words).
Proof.
  split; [reflexivity|]. split; [|split].
  - apply Forall_forall. intros w Hw.
    apply in_map_iff in Hw. destruct Hw as [x [<- _]].
    apply squeeze_is_triple_free.
  - intros H. induction H as [|w ws Hw _ IH]; simpl; [reflexivity|].
    now rewrite (squeeze_triple_free w Hw), IH.
  - simpl. unfold RemoveLetterRepetitions_preprocess_text. simpl.
    do 2 f_equal. apply map_idem. intros s.
    apply squeeze_triple_free, squeeze_is_triple_free.
Qed.

(** X11 on words without a triple letter; capital letters do not count. *)
Lemma RemoveLetterRepetitions_squeezes_witness :
  Forall (fun w => triple_free w = true) ["cool"; "YESSS"]
  /\ map squeeze ["cool"; "YESSS"] = ["cool"; "YESSS"].
Proof.
  assert (H : Forall (fun w => triple_free w = true) ["cool"; "YESSS"])
    by (repeat constructor).
  split; [exact H|].
  exact (proj1 (proj2 (proj2 (RemoveLetterRepetitions_squeezes ["cool"; "YESSS"]))) H).
Defined.

(** *** Removing terms *)

Lemma contains_empty (s : string) : contains "" s = true.
Proof. destruct s; reflexivity. Qed.

Lemma filter_none {A : Type} (f : A -> bool) (l : list A) :
  (forall x, f x = false) -> filter f l = [].
Proof.
  intros H. induction l as [|x l IH]; simpl; [reflexivity|]. now rewrite H.
Qed.

(** X12.  [RemoveTerm], ignoring case, keeps the words whose lower-case form
    does not contain the lower-cased term, in their order and as they came
    in (they are not lower-cased); it is idempotent; and with the empty
    term, which every word contains, it returns no word at all. *)
Theorem RemoveTerm_filters_by_substring (term : string) (words : list string) :
  preprocess_text (RemoveTerm__init__ term true) (VList words)
  = Ok (VList (filter (fun word => negb (contains (lower term) (lower word)))
                      words))
  /\ bind (preprocess_text (RemoveTerm__init__ term true) (VList words))
          (preprocess_text (RemoveTerm__init__ term true))
     = preprocess_text (RemoveTerm__init__ term true) (VList words)
  /\ preprocess_text (RemoveTerm__init__ "" true) (VList words) = Ok (VList []).
Proof.
  assert (E : forall t ws,
             preprocess_text (RemoveTerm__init__ t true) (VList ws)
             = Ok (VList (filter (fun word =>
                                    negb (contains (lower t) (lower word))) ws))).
  { intros t ws. simpl. unfold RemoveTerm_preprocess_text.
    rewrite RemoveTerm_loop_some. reflexivity. }
  split; [apply E|]. split.
  - rewrite E. cbn [bind]. rewrite E, filter_idem. reflexivity.
  - rewrite E. rewrite filter_none; [reflexivity|].
    intros x. simpl. now rewrite contains_empty.
Qed.

Lemma map_fixed {A : Type} (f : A -> A) (l : list A) :
  Forall (fun x => f x = x) l -> map f l = l.
Proof.
  induction 1 as [|x l Hx _ IH]; simpl; [reflexivity|]. now rewrite Hx, IH.
Qed.

(** X13.  [RemoveExactTerms], ignoring case, is idempotent; a
    [WordToLowercase] before it changes nothing of its result; and with an
    empty list of terms it does what [WordToLowercase] does. *)
Theorem RemoveExactTerms_absorbs_lowercase (terms : list string) (words : list string) :
  bind (preprocess_text (RemoveExactTerms__init__ terms true) (VList words))
       (preprocess_text (RemoveExactTerms__init__ terms true))
  = preprocess_text (RemoveExactTerms__init__ terms true) (VList words)
  /\ run_preprocessors [WordToLowercase; RemoveExactTerms__init__ terms true]
                       (VList words)
     = preprocess_text (RemoveExactTerms__init__ terms true) (VList words)
  /\ preprocess_text (RemoveExactTerms__init__ [] true) (VList words)
     = preprocess_text WordToLowercase (VList words).
Proof.
  assert (E : forall ts ws,
             preprocess_text (RemoveExactTerms__init__ ts true) (VList ws)
             = Ok (VList (filter (fun word => negb (mem word (map lower ts)))
                                 (map lower ws)))).
  { intros ts ws. simpl. unfold RemoveExactTerms_preprocess_text.
    rewrite RemoveExactTerms_loop_some. reflexivity. }
  split; [|split].
  - rewrite E. cbn [bind]. rewrite E. do 2 f_equal.
    set (f := fun word => negb (mem word (map lower terms))).
    rewrite (map_fixed lower (filter f (map lower words))).
    + apply filter_idem.
    + apply Forall_forall. intros x Hx. apply filter_In in Hx.
      destruct Hx as [Hx _]. apply in_map_iff in Hx.
      destruct Hx as [y [<- _]]. apply lower_idem.
  - cbn [run_preprocessors preprocess_text WordToLowercase_preprocess_text bind iter].
    change (bind (preprocess_text (RemoveExactTerms__init__ terms true)
                                  (VList (map lower words)))
                 (fun v => Ok v))
      with (bind (preprocess_text (RemoveExactTerms__init__ terms true)
                                  (VList (map lower words)))
                 (run_preprocessors [])).
    rewrite !E. cbn [bind run_preprocessors].
    now rewrite (map_idem lower words lower_idem).
  - rewrite E. simpl. unfold WordToLowercase_preprocess_text. simpl.
    do 2 f_equal. now apply filter_all_true, Forall_forall.
Qed.

(** *** The string driver: failures and batches *)

Lemma preprocess_strings_loop_app (ps : list PreProcessor)
      (pre finals rest acc : list string) :
  finals_of ps pre finals ->
  preprocess_strings_loop ps acc (pre ++ rest)
  = preprocess_strings_loop ps (acc ++ filter truthy (map strip finals)) rest.
Proof.
  intros H. revert acc.
  induction H as [|s f pre finals Hs _ IH]; intros acc; simpl.
  - now rewrite app_nil_r.
  - rewrite Hs. simpl. destruct (truthy (strip f)).
    + rewrite IH, <- app_assoc. reflexivity.
    + apply IH.
Qed.

Lemma finals_of_nil (strings : list string) : finals_of [] strings strings.
Proof. induction strings; constructor; auto. Qed.

(** X15.  With an empty pipeline [preprocess_strings] never raises: it
    trims every string and drops the ones that are blank. *)
Theorem preprocess_strings_empty_pipeline (strings : list string) :
  preprocess_strings strings [] = Ok (filter truthy (map strip strings))
  /\ (Forall (fun s => strip s = "") strings -> preprocess_strings strings [] = Ok []).
Proof.
  assert (E : preprocess_strings strings []
              = Ok (filter truthy (map strip strings))).
  { unfold preprocess_strings.
    now rewrite (preprocess_strings_loop_ok [] strings strings [] (finals_of_nil _)). }
  split; [exact E|]. intros H. rewrite E. f_equal.
  induction H as [|s strings Hs _ IH]; simpl; [reflexivity|].
  rewrite Hs. exact (IH (preprocess_strings_loop_ok [] strings strings []
                           (finals_of_nil _))).
Qed.

(** X15 on a batch of blank strings. *)
Lemma preprocess_strings_empty_pipeline_witness :
  Forall (fun s => strip s = "") [" "; ""]
  /\ preprocess_strings [" "; ""] [] = Ok [].
Proof.
  assert (H : Forall (fun s => strip s = "") [" "; ""]) by (repeat constructor).
  split; [exact H|].
  exact (proj2 (preprocess_strings_empty_pipeline [" "; ""]) H).
Defined.

(** X16.  [preprocess_strings] has no per-item recovery: when the pipeline
    raises on a string, the strings before it having gone through, the whole
    call raises that exception, whatever the results collected so far and
    whatever comes after. *)
Theorem preprocess_strings_aborts_on_raise
        (ps : list PreProcessor) (pre finals post : list string)
        (s : string) (e : exn) :
  finals_of ps pre finals ->
  run_preprocessors ps (VStr s) = Raise e ->
  preprocess_strings (pre ++ s :: post) ps = Raise e.
Proof.
  intros Hpre Hs. unfold preprocess_strings.
  rewrite (preprocess_strings_loop_app ps pre finals _ [] Hpre).
  simpl. now rewrite Hs.
Qed.

(** X16 with a pipeline whose last pre-processor has no term. *)
Lemma preprocess_strings_aborts_on_raise_witness :
  preprocess_strings ["a"; "b"]
                     [SplitWordByWhitespace; ConcatWordArray;
                      RemoveTerm__init__ "b" false]
  = Raise AttributeError.
Proof.
  apply (preprocess_strings_aborts_on_raise _ [] [] ["b"] "a" AttributeError).
  - constructor.
  - reflexivity.
Defined.

(** X17.  A pipeline that leaves a list of words, for want of a final
    [ConcatWordArray], makes [preprocess_strings] raise [AttributeError]
    at the first string, even when the list is empty. *)
Theorem preprocess_strings_needs_a_string
        (ps : list PreProcessor) (pre finals post : list string)
        (s : string) (words : list string) :
  finals_of ps pre finals ->
  run_preprocessors ps (VStr s) = Ok (VList words) ->
  preprocess_strings (pre ++ s :: post) ps = Raise AttributeError.
Proof.
  intros Hpre Hs. unfold preprocess_strings.
  rewrite (preprocess_strings_loop_app ps pre finals _ [] Hpre).
  simpl. now rewrite Hs.
Qed.

(** X17 with a blank string, whose list of words is empty. *)
Lemma preprocess_strings_needs_a_string_witness :
  preprocess_strings ["  "; "a b"] [SplitWordByWhitespace; WordToLowercase]
  = Raise AttributeError.
Proof.
  apply (preprocess_strings_needs_a_string _ [] [] ["a b"] "  " []).
  - constructor.
  - reflexivity.
Defined.

Lemma finals_of_app_inv (ps : list PreProcessor) (a b finals : list string) :
  finals_of ps (a ++ b) finals ->
  exists fa fb, finals = fa ++ fb /\ finals_of ps a fa /\ finals_of ps b fb.
Proof.
  intros H. apply Forall2_app_inv_l in H.
  destruct H as [fa [fb [Ha [Hb ->]]]]. eauto.
Qed.

(** X18.  [preprocess_strings] treats the strings one by one: a batch made
    of two batches returns exactly when both return, and then it returns
    their results one after the other. *)
Theorem preprocess_strings_app
        (ps : list PreProcessor) (a b out : list string) :
  preprocess_strings (a ++ b) ps = Ok out
  <-> exists out_a out_b,
        preprocess_strings a ps = Ok out_a
        /\ preprocess_strings b ps = Ok out_b
        /\ out = out_a ++ out_b.
Proof.
  unfold preprocess_strings. split.
  - intros H. apply preprocess_strings_loop_inv in H.
    destruct H as [finals [Hf ->]].
    apply finals_of_app_inv in Hf. destruct Hf as [fa [fb [-> [Ha Hb]]]].
    exists (filter truthy (map strip fa)), (filter truthy (map strip fb)).
    rewrite (preprocess_strings_loop_ok ps a fa [] Ha).
    rewrite (preprocess_strings_loop_ok ps b fb [] Hb).
    simpl. now rewrite map_app, filter_app.
  - intros [oa [ob [Ha [Hb ->]]]].
    apply preprocess_strings_loop_inv in Ha. destruct Ha as [fa [Hfa ->]].
    apply preprocess_strings_loop_inv in Hb. destruct Hb as [fb [Hfb ->]].
    rewrite (preprocess_strings_loop_app ps a fa b [] Hfa).
    now rewrite (preprocess_strings_loop_ok ps b fb _ Hfb).
Qed.

(** X18 on two batches of one string. *)
Lemma preprocess_strings_app_witness :
  preprocess_strings (["a  b"] ++ [" "; "c"]) filter_law_pipeline
  = Ok (["a b"] ++ ["c"]).
Proof.
  apply (proj2 (preprocess_strings_app filter_law_pipeline
                  ["a  b"] [" "; "c"] (["a b"] ++ ["c"]))).
  exists ["a b"], ["c"]. repeat split.
Defined.

(** *** The record driver: sharing, failures, the empty pipeline *)

Section RecordDriver.

Variable M : Type.

Implicit Types (h : heap M) (t : Tweet M) (l : loc).

Lemma tweets_loop_nil h (copies : list loc) :
  Forall (fun l => l < List.length h) copies ->
  tweets_loop h copies [] = Some (h, Ok tt).
Proof.
  induction 1 as [|c copies Hc _ IH]; simpl; [reflexivity | exact IH].
Qed.

Lemma assign_text_loop_raises h l ps t (e : exn) :
  nth_error h l = Some t ->
  run_preprocessors ps (text t) = Raise e ->
  exists h', assign_text_loop h l ps = Some (h', Raise e).
Proof.
  revert h t. induction ps as [|p ps IH]; intros h t Ht He; simpl in *.
  - discriminate.
  - rewrite Ht. destruct (preprocess_text p (text t)) as [v|e'].
    + simpl in He. apply (IH _ (set_text t v)); [|exact He].
      apply nth_error_update_eq. apply nth_error_Some. congruence.
    + simpl in He. injection He as ->. eauto.
Qed.

(** What the deep copy of a batch is, read off [deepcopy_from_spec]. *)
Lemma deepcopy_spec h (tweets : list loc) :
  well_formed h tweets ->
  exists h1 copies m,
    deepcopy h tweets = Some (h1, copies)
    /\ copying h m h1
    /\ Forall2 (fun l l' => memo_get m l = Some l') tweets copies.
Proof.
  intros Hwf.
  destruct (deepcopy_from_spec M h tweets Hwf [] h (copying_start M h))
    as [h1 [copies [m [E [Hc [Hall _]]]]]].
  exists h1, copies, m. auto.
Qed.

(** X19.  The copied batch shares what the input batch shares and nothing
    else: two entries of the returned batch are the same record exactly
    when the two entries of the input at those places are the same
    record. *)
Theorem preprocess_tweets_keeps_sharing
        h (tweets : list loc) (ps : list PreProcessor) h' (out : list loc)
        (i j : nat) (l1 l2 c1 c2 : loc) :
  well_formed h tweets ->
  preprocess_tweets h tweets ps = Some (h', Ok out) ->
  nth_error tweets i = Some l1 -> nth_error tweets j = Some l2 ->
  nth_error out i = Some c1 -> nth_error out j = Some c2 ->
  (c1 = c2 <-> l1 = l2).
Proof.
  intros Hwf E Hi Hj Hci Hcj.
  destruct (deepcopy_spec h tweets Hwf) as [h1 [copies [m [Ed [Hc Hall]]]]].
  unfold preprocess_tweets in E. rewrite Ed in E.
  destruct (tweets_loop h1 copies ps) as [[h2 [u|e]]|]; try discriminate.
  injection E as _ <-.
  destruct (Forall2_nth_error _ _ _ _ _ Hall Hi) as [c1' [Hc1 Hm1]].
  destruct (Forall2_nth_error _ _ _ _ _ Hall Hj) as [c2' [Hc2 Hm2]].
  assert (c1' = c1) by congruence. assert (c2' = c2) by congruence. subst.
  split.
  - intros ->. exact (copying_inj _ _ _ Hc _ _ _ Hm1 Hm2).
  - intros ->. congruence.
Qed.

(** X20.  With an empty pipeline [preprocess_tweets] returns: the returned
    batch lists, place by place, new records that hold what the records of
    the input hold. *)
Theorem preprocess_tweets_empty_pipeline h (tweets : list loc) :
  well_formed h tweets ->
  exists h' out,
    preprocess_tweets h tweets [] = Some (h', Ok out)
    /\ List.length out = List.length tweets
    /\ forall i l, nth_error tweets i = Some l ->
         exists l', nth_error out i = Some l'
                    /\ List.length h <= l'
                    /\ nth_error h' l' = nth_error h l.
Proof.
  intros Hwf.
  destruct (deepcopy_spec h tweets Hwf) as [h1 [copies [m [Ed [Hc Hall]]]]].
  exists h1, copies. unfold preprocess_tweets. rewrite Ed.
  rewrite tweets_loop_nil.
  - split; [reflexivity|]. split; [symmetry; exact (Forall2_length Hall)|].
    intros i l Hi.
    destruct (Forall2_nth_error _ _ _ _ _ Hall Hi) as [l' [Hl' Hm]].
    destruct (copying_memo _ _ _ Hc _ _ Hm) as [_ [Hrange Hsame]].
    exists l'. split; [exact Hl'|]. split; [lia | exact Hsame].
  - apply (Forall2_image _ _ _ _ Hall). intros l l' Hm.
    destruct (copying_memo _ _ _ Hc _ _ Hm) as [_ [Hrange _]]. lia.
Qed.

(** X21.  When the pipeline raises on the text of the first record of the
    batch, [preprocess_tweets] raises that exception and returns no batch;
    the records that were in the store are as they were. *)
Theorem preprocess_tweets_aborts_on_raise
        h l (rest : list loc) (ps : list PreProcessor) t (e : exn) :
  well_formed h (l :: rest) ->
  nth_error h l = Some t ->
  run_preprocessors ps (text t) = Raise e ->
  exists h',
    preprocess_tweets h (l :: rest) ps = Some (h', Raise e)
    /\ firstn (List.length h) h' = h.
Proof.
  intros Hwf Ht He.
  destruct (preprocess_tweets_spec M h (l :: rest) ps Hwf)
    as [h' [r [_ [E [_ [Hfirst _]]]]]].
  exists h'. split; [|exact Hfirst]. rewrite E. do 2 f_equal.
  destruct (deepcopy_spec h (l :: rest) Hwf) as [h1 [copies [m [Ed [Hc Hall]]]]].
  unfold preprocess_tweets in E. rewrite Ed in E.
  inversion Hall as [|? c ? copies' Hm Hall' ]; subst.
  destruct (copying_memo _ _ _ Hc _ _ Hm) as [_ [_ Hsame]].
  rewrite Ht in Hsame.
  destruct (assign_text_loop_raises h1 c ps t e Hsame He) as [h2 Ha].
  simpl in E. rewrite Ha in E. congruence.
Qed.

End RecordDriver.

(** X19 on the batch that lists the first of two tweets twice. *)
Lemma preprocess_tweets_keeps_sharing_witness :
  preprocess_tweets two_tweets [0; 1; 0] [WordToLowercase]
  = Some (two_tweets
            ++ [mkTweet (VList ["h"; "e"; "l"; "l"; "o"; " "; " ";
                                "w"; "o"; "r"; "l"; "d"]) "alice";
                mkTweet (VList [" "; " "; " "]) "bob"],
          Ok [2; 3; 2])
  /\ (2 = 2 <-> 0 = 0) /\ (2 = 3 <-> 0 = 1).
Proof.
  assert (E : preprocess_tweets two_tweets [0; 1; 0] [WordToLowercase]
              = Some (two_tweets
                        ++ [mkTweet (VList ["h"; "e"; "l"; "l"; "o"; " "; " ";
                                            "w"; "o"; "r"; "l"; "d"]) "alice";
                            mkTweet (VList [" "; " "; " "]) "bob"],
                      Ok [2; 3; 2])) by reflexivity.
  split; [exact E|]. split.
  - exact (preprocess_tweets_keeps_sharing string two_tweets [0; 1; 0]
             [WordToLowercase] _ [2; 3; 2] 0 2 0 0 2 2
             well_formed_two_tweets E eq_refl eq_refl eq_refl eq_refl).
  - exact (preprocess_tweets_keeps_sharing string two_tweets [0; 1; 0]
             [WordToLowercase] _ [2; 3; 2] 0 1 0 1 2 3
             well_formed_two_tweets E eq_refl eq_refl eq_refl eq_refl).
Defined.

(** X20 on the same batch. *)
Lemma preprocess_tweets_empty_pipeline_witness :
  well_formed two_tweets [0; 1; 0]
  /\ exists h' out,
       preprocess_tweets two_tweets [0; 1; 0] [] = Some (h', Ok out)
       /\ List.length out = 3.
Proof.
  split; [exact well_formed_two_tweets|].
  destruct (preprocess_tweets_empty_pipeline string two_tweets [0; 1; 0]
              well_formed_two_tweets) as [h' [out [E [Hlen _]]]].
  exists h', out. split; [exact E | exact Hlen].
Defined.

(** X21 with a pipeline that cannot split the words it has split. *)
Lemma preprocess_tweets_aborts_on_raise_witness :
  exists h',
    preprocess_tweets two_tweets [0; 1]
                      [SplitWordByWhitespace; SplitWordByWhitespace]
    = Some (h', Raise AttributeError)
    /\ firstn 2 h' = two_tweets.
Proof.
  apply (preprocess_tweets_aborts_on_raise string two_tweets 0 [1]
           [SplitWordByWhitespace; SplitWordByWhitespace]
           (mkTweet (VStr "Hello  World") "alice") AttributeError).
  - repeat constructor.
  - reflexivity.
  - reflexivity.
Defined.

(** *** The string driver: what is emitted *)

Lemma lstrip_split (s : string) :
  exists a, s = (a ++ lstrip s)%string /\ all_chars isspace a = true.
Proof.
  induction s as [|c s [a [E Ha]]]; simpl.
  - exists "". auto.
  - destruct (isspace c) eqn:Ec.
    + exists (String c a). simpl. rewrite Ec, Ha, <- E. auto.
    + exists "". auto.
Qed.

Lemma rstrip_split (s : string) :
  exists b, s = (rstrip s ++ b)%string /\ all_chars isspace b = true.
Proof.
  induction s as [|c s [b [E Hb]]]; simpl.
  - exists "". auto.
  - destruct (rstrip s) as [|d r] eqn:Er.
    + simpl in E. subst b. destruct (isspace c) eqn:Ec.
      * exists (String c s). simpl. now rewrite Ec, Hb.
      * exists s. auto.
    + exists b. simpl in *. now rewrite <- E.
Qed.

Lemma rstrip_end (s : string) : ends_at_space (rstrip s) = true -> rstrip s = "".
Proof.
  induction s as [|c s IH]; simpl; [reflexivity|].
  destruct (rstrip s) as [|d r] eqn:Er.
  - destruct (isspace c) eqn:Ec; [reflexivity|]. simpl. congruence.
  - intros H. specialize (IH H). discriminate IH.
Qed.

Lemma lstrip_spaces (a s : string) :
  all_chars isspace a = true -> lstrip (a ++ s) = lstrip s.
Proof.
  induction a as [|c a IH]; simpl; [reflexivity|]. intros H.
  apply andb_true_iff in H. destruct H as [Hc Ha]. now rewrite Hc, IH.
Qed.

Lemma rstrip_spaces (b : string) : all_chars isspace b = true -> rstrip b = "".
Proof.
  induction b as [|c b IH]; simpl; [reflexivity|]. intros H.
  apply andb_true_iff in H. destruct H as [Hc Hb]. now rewrite (IH Hb), Hc.
Qed.

Lemma rstrip_before_spaces (o b : string) :
  ends_at_space o = false -> all_chars isspace b = true -> rstrip (o ++ b) = o.
Proof.
  intros Ho Hb. induction o as [|c o IH]; [discriminate|].
  cbn [append rstrip]. destruct o as [|d o].
  - simpl in Ho. simpl. now rewrite (rstrip_spaces b Hb), Ho.
  - rewrite (IH Ho). reflexivity.
Qed.

Lemma strip_trimmed_of (f o : string) : trimmed_of f o -> strip f = o.
Proof.
  intros [a [b [-> [Ha [Hb [Ho1 Ho2]]]]]]. unfold strip.
  rewrite (lstrip_spaces a _ Ha), lstrip_fixed.
  - exact (rstrip_before_spaces o b Ho2 Hb).
  - right. destruct o; [discriminate | exact Ho1].
Qed.

Lemma strip_blank (f : string) : all_chars isspace f = true -> strip f = "".
Proof.
  intros H. unfold strip. rewrite <- (append_nil_r f).
  now rewrite (lstrip_spaces f "" H).
Qed.

Lemma blank_of_strip (f : string) : strip f = "" -> all_chars isspace f = true.
Proof.
  unfold strip. intros H.
  destruct (lstrip_split f) as [a [Ea Ha]].
  destruct (rstrip_split (lstrip f)) as [b [Eb Hb]].
  rewrite H in Eb. simpl in Eb. rewrite Ea, Eb, all_chars_app, Ha, Hb.
  reflexivity.
Qed.

Lemma trimmed_of_strip (f : string) :
  truthy (strip f) = true -> trimmed_of f (strip f).
Proof.
  intros H. unfold strip in *.
  destruct (lstrip_split f) as [a [Ea Ha]].
  destruct (rstrip_split (lstrip f)) as [b [Eb Hb]].
  exists a, b. split; [now rewrite <- Eb|].
  split; [exact Ha|]. split; [exact Hb|]. split.
  - apply rstrip_keeps_head.
    destruct (at_space (lstrip f)) eqn:E; [|reflexivity].
    rewrite (lstrip_head f E) in H. discriminate H.
  - destruct (ends_at_space (rstrip (lstrip f))) eqn:E; [|reflexivity].
    rewrite (rstrip_end _ E) in H. discriminate H.
Qed.

(** The trimmed final values that are not empty, written with [strip], are
    what [emits] describes without it. *)
Lemma emits_filter_strip (finals out : list string) :
  emits finals out <-> out = filter truthy (map strip finals).
Proof.
  split.
  - induction 1 as [|f o finals out Hfo _ IH|f finals out Hf _ IH]; simpl.
    + reflexivity.
    + rewrite (strip_trimmed_of f o Hfo), <- IH.
      destruct Hfo as [_ [_ [_ [_ [_ [Ho _]]]]]].
      destruct o; [discriminate | reflexivity].
    + now rewrite (strip_blank f Hf).
  - intros ->. induction finals as [|f finals IH]; simpl; [constructor|].
    destruct (truthy (strip f)) eqn:E.
    + constructor; [now apply trimmed_of_strip | exact IH].
    + apply emits_blank; [|exact IH]. apply blank_of_strip.
      destruct (strip f); [reflexivity | discriminate].
Qed.

Lemma fold_bind_raise (ps : list PreProcessor) (e : exn) :
  fold_left (fun r p => bind r (preprocess_text p)) ps (Raise e) = Raise e.
Proof. induction ps as [|p ps IH]; simpl; [reflexivity | exact IH]. Qed.

(** The loop of the drivers over the pre-processors computes the final
    value. *)
Lemma run_preprocessors_fold (ps : list PreProcessor) (v : value) :
  run_preprocessors ps v
  = fold_left (fun r p => bind r (preprocess_text p)) ps (Ok v).
Proof.
  revert v. induction ps as [|p ps IH]; intros v; simpl; [reflexivity|].
  destruct (preprocess_text p v) as [v'|e]; simpl.
  - apply IH.
  - now rewrite fold_bind_raise.
Qed.

Lemma finals_of_final_value (ps : list PreProcessor) (strings finals : list string) :
  finals_of ps strings finals
  <-> Forall2 (fun s f => final_value ps s = Ok (VStr f)) strings finals.
Proof.
  unfold finals_of, final_value.
  split; intros H; induction H; constructor; auto;
    rewrite run_preprocessors_fold in *; assumption.
Qed.

(** C1.  [preprocess_strings] returns exactly when every input, taken
    through all the pre-processors in order, ends as a string; it then
    returns, in the order of the inputs, the trimmed form of each of these
    final values that is not whitespace only, and nothing for the others:
    one output or none for each input, never more outputs than inputs.
    The blank input of the filter law is dropped; the last two instances
    show the pre-processors and the trimming at work. *)
Theorem preprocess_strings_emits_trimmed_nonempty
        (strings : list string) (preprocessors : list PreProcessor) :
  (forall out,
      preprocess_strings strings preprocessors = Ok out <->
      exists finals,
        Forall2 (fun s f => final_value preprocessors s = Ok (VStr f))
                strings finals
        /\ emits finals out)
  /\ (forall out,
         preprocess_strings strings preprocessors = Ok out ->
         List.length out <= List.length strings)
  /\ preprocess_strings ["   "; "hello world"] filter_law_pipeline
     = Ok ["hello world"]
  /\ preprocess_strings ["  Hello  World "; "  "]
                        [SplitWordByWhitespace; WordToLowercase; ConcatWordArray]
     = Ok ["hello world"]
  /\ preprocess_strings [" a "; " "] [ConcatWordArray] = Ok ["a"].
Proof.
  split; [|split; [|repeat split]].
  - intros out. split.
    + intros H. apply preprocess_strings_loop_inv in H.
      destruct H as [finals [Hf ->]]. exists finals. split.
      * now apply finals_of_final_value.
      * now apply emits_filter_strip.
    + intros [finals [Hf He]]. apply finals_of_final_value in Hf.
      apply emits_filter_strip in He. subst out.
      unfold preprocess_strings.
      now rewrite (preprocess_strings_loop_ok _ _ _ [] Hf).
  - intros out H. apply preprocess_strings_loop_inv in H.
    destruct H as [finals [Hf ->]]. simpl.
    rewrite <- (finals_of_length _ _ _ Hf), <- (length_map strip finals).
    apply filter_length_le.
Qed.

(** C1 on a batch of two strings, the second blank, with pre-processors
    that lower the case of the first and put whitespace at both its ends. *)
Lemma preprocess_strings_emits_trimmed_nonempty_witness :
  preprocess_strings [" A "; " "] [WordToLowercase; ConcatWordArray] = Ok ["a"].
Proof.
  apply (proj1 (preprocess_strings_emits_trimmed_nonempty
                  [" A "; " "] [WordToLowercase; ConcatWordArray]) ["a"]).
  exists ["  a  "; " "]. split.
  - repeat constructor.
  - apply emits_item.
    + exists "  ", "  ". repeat split.
    + apply emits_blank; [reflexivity | constructor].
Defined.

(** *** A whole string where words are expected *)

Lemma get_join_chars (c : ascii) (s : string) (i : nat) :
  String.get (S (S i)) (join " " (chars (String c s)))
  = String.get i (join " " (chars s)).
Proof.
  destruct s as [|d s]; [destruct i; reflexivity|].
  change (chars (String c (String d s)))
    with (String c "" :: String d "" :: chars s).
  rewrite join_cons. reflexivity.
Qed.

(** X14.  [ConcatWordArray] handed a whole string does not raise: it takes
    the characters of the string for its words and returns them with a
    space between any two, so a text of 2n-1 characters for n: those of the
    string at the even places and spaces at the odd ones. *)
Theorem ConcatWordArray_spaces_out_a_string (s : string) :
  exists spaced,
    preprocess_text ConcatWordArray (VStr s) = Ok (VStr spaced)
    /\ String.length spaced = 2 * String.length s - 1
    /\ (forall i, String.get (2 * i) spaced = String.get i s)
    /\ (forall i, 2 * i + 1 < String.length spaced ->
                  String.get (2 * i + 1) spaced = Some " "%char).
Proof.
  exists (join " " (chars s)). split; [reflexivity|].
  assert (Hlen : forall s', String.length (join " " (chars s'))
                            = 2 * String.length s' - 1).
  { clear. induction s' as [|c s' IH]; [reflexivity|].
    destruct s' as [|d s']; [reflexivity|].
    change (chars (String c (String d s')))
      with (String c "" :: String d "" :: chars s').
    rewrite join_cons.
    change (chars (String d s')) with (String d "" :: chars s') in IH.
    simpl String.length in *. rewrite IH. lia. }
  split; [apply Hlen|]. split.
  - induction s as [|c s IH]; intros i.
    + destruct i; reflexivity.
    + destruct i as [|i].
      * destruct s; reflexivity.
      * replace (2 * S i) with (S (S (2 * i))) by lia.
        rewrite get_join_chars. simpl String.get. apply IH.
  - induction s as [|c s IH]; intros i Hi.
    + simpl in Hi. lia.
    + rewrite Hlen in Hi. simpl String.length in Hi.
      destruct s as [|d s]; [simpl in Hi; lia|].
      destruct i as [|i]; [reflexivity|].
      replace (2 * S i + 1) with (S (S (2 * i + 1))) by lia.
      rewrite get_join_chars. apply IH.
      rewrite Hlen. simpl String.length in *. lia.
Qed.

(** X14 on a string of two characters. *)
Lemma ConcatWordArray_spaces_out_a_string_witness :
  exists spaced,
    preprocess_text ConcatWordArray (VStr "ab") = Ok (VStr spaced)
    /\ String.get 1 spaced = Some " "%char.
Proof.
  destruct (ConcatWordArray_spaces_out_a_string "ab") as [spaced [E [Hl [_ H]]]].
  exists spaced. split; [exact E|]. apply (H 0). rewrite Hl. simpl. lia.
Defined.
